(** * A contact book: fields, records, the address book and its file codec

    A shallow embedding of [main.py].  Python strings are lists of Unicode
    code points, exceptions are an explicit error type, methods that mutate
    [self] are state transformers that keep the state an exception leaves
    behind, and the [UserDict] behind the address book is an insertion
    ordered association list.  The wall clock read by [datetime.today()] and
    the file read by [json.load] are inputs of the functions that use them. *)

From Stdlib Require Import ZArith NArith List String Ascii Bool Lia DecimalString.
Import ListNotations.

Set Implicit Arguments.

(** ** Strings *)

(** A character is a Unicode code point, a [str] a sequence of them. *)
Definition char := N.
Definition str := list char.

(** Program text (string literals of the source) as a [str]. *)
Definition py (s : string) : str :=
  List.map N_of_ascii (list_ascii_of_string s).

Definition str_eqb (a b : str) : bool :=
  if list_eq_dec N.eq_dec a b then true else false.

(** [s.startswith(q)] and [q in s]. *)
Fixpoint startswith (q s : str) : bool :=
  match q, s with
  | [], _ => true
  | _ :: _, [] => false
  | a :: q', b :: s' => N.eqb a b && startswith q' s'
  end.

Fixpoint str_in (q s : str) : bool :=
  startswith q s ||
  match s with
  | [] => false
  | _ :: s' => str_in q s'
  end.

(** [sep.join(parts)]. *)
Fixpoint join (sep : str) (parts : list str) : str :=
  match parts with
  | [] => []
  | [p] => p
  | p :: rest => p ++ sep ++ join sep rest
  end.

(** The ASCII block of the Unicode decimal-digit table. *)
Definition ascii_decimal (c : char) : option Z :=
  if (N.leb 48 c && N.leb c 57)%bool then Some (Z.of_N c - 48)%Z else None.

Definition ascii_isdigit (c : char) : bool :=
  match ascii_decimal c with Some _ => true | None => false end.

(** Lower-casing of the ASCII letters, every other code point unchanged. *)
Definition ascii_lower (s : str) : str :=
  List.map (fun c => if (N.leb 65 c && N.leb c 90)%bool then (c + 32)%N else c) s.

(** ** Exceptions and stateful methods *)

Inductive exn : Type :=
| ValueError (msg : string)
| TypeError
| KeyError
| AttributeError
| FileNotFoundError
| JSONDecodeError.

Inductive result (A : Type) : Type :=
| Ok (a : A)
| Raise (e : exn).
Arguments Ok {A} a.
Arguments Raise {A} e.

Definition rbind {A B} (r : result A) (k : A -> result B) : result B :=
  match r with
  | Ok a => k a
  | Raise e => Raise e
  end.

Declare Scope result_scope.
Delimit Scope result_scope with result.
Notation "x <- r ;; k" := (rbind r (fun x => k))
  (at level 61, r at next level, right associativity) : result_scope.

(** A method on a mutable object of type [S]: it returns or raises, and in
    both cases leaves a state behind. *)
Definition method (S A : Type) : Type := S -> result A * S.

Definition mret {S A} (a : A) : method S A := fun s => (Ok a, s).
Definition mraise {S A} (e : exn) : method S A := fun s => (Raise e, s).
Definition mbind {S A B} (m : method S A) (k : A -> method S B) : method S B :=
  fun s =>
    match m s with
    | (Ok a, s') => k a s'
    | (Raise e, s') => (Raise e, s')
    end.
Definition mlift {S A} (r : result A) : method S A := fun s => (r, s).
Definition mmodify {S} (f : S -> S) : method S unit := fun s => (Ok tt, f s).

Declare Scope method_scope.
Delimit Scope method_scope with method.
Notation "x <- m ;; k" := (mbind m (fun x => k))
  (at level 61, m at next level, right associativity) : method_scope.

(** [for x in xs: body(x)], stopping at the first exception. *)
Fixpoint mfor {S A} (xs : list A) (body : A -> method S unit) : method S unit :=
  match xs with
  | [] => mret tt
  | x :: rest => (_ <- body x ;; mfor rest body)%method
  end.

(** ** Calendar dates, after CPython's [datetime] *)

Open Scope Z_scope.

Record date : Type := mkdate { year : Z; month : Z; day : Z }.

Definition is_leap (y : Z) : bool :=
  (y mod 4 =? 0) && (negb (y mod 100 =? 0) || (y mod 400 =? 0)).

Definition days_in_month (y m : Z) : Z :=
  if (m =? 2) && is_leap y then 29
  else nth (Z.to_nat m) [0; 31; 28; 31; 30; 31; 30; 31; 31; 30; 31; 30; 31] 0.

Definition days_before_year (y : Z) : Z :=
  let y := y - 1 in y * 365 + y / 4 - y / 100 + y / 400.

Definition days_before_month (y m : Z) : Z :=
  nth (Z.to_nat m) [0; 0; 31; 59; 90; 120; 151; 181; 212; 243; 273; 304; 334] 0
  + (if (2 <? m) && is_leap y then 1 else 0).

(** The checks of the [date]/[datetime] constructors on year, month, day. *)
Definition check_date_fields (y m d : Z) : bool :=
  (1 <=? y) && (y <=? 9999) && (1 <=? m) && (m <=? 12)
  && (1 <=? d) && (d <=? days_in_month y m).

(** The message of the ValueError names the field at fault in CPython; one
    message stands for them here. *)
Definition date_new (y m d : Z) : result date :=
  if check_date_fields y m d then Ok (mkdate y m d)
  else Raise (ValueError "date value out of range").

Definition toordinal (y m d : Z) : Z :=
  days_before_year y + days_before_month y m + d.

Record datetime : Type := mkdatetime {
  dt_year : Z; dt_month : Z; dt_day : Z;
  dt_hour : Z; dt_minute : Z; dt_second : Z; dt_microsecond : Z }.

(** [datetime(y, m, d)]: midnight of that day. *)
Definition datetime_new (y m d : Z) : result datetime :=
  if check_date_fields y m d then Ok (mkdatetime y m d 0 0 0 0)
  else Raise (ValueError "date value out of range").

(** A datetime the clock can return. *)
Definition datetime_valid (t : datetime) : bool :=
  check_date_fields (dt_year t) (dt_month t) (dt_day t)
  && (0 <=? dt_hour t) && (dt_hour t <? 24)
  && (0 <=? dt_minute t) && (dt_minute t <? 60)
  && (0 <=? dt_second t) && (dt_second t <? 60)
  && (0 <=? dt_microsecond t) && (dt_microsecond t <? 1000000).

(** Lexicographic comparison of the field tuples: [a > b]. *)
Fixpoint lex_gt (a b : list Z) : bool :=
  match a, b with
  | x :: a', y :: b' => (y <? x) || ((x =? y) && lex_gt a' b')
  | _, _ => false
  end.

Definition datetime_fields (t : datetime) : list Z :=
  [dt_year t; dt_month t; dt_day t; dt_hour t; dt_minute t; dt_second t;
   dt_microsecond t].

Definition datetime_gt (a b : datetime) : bool :=
  lex_gt (datetime_fields a) (datetime_fields b).

Definition seconds_of_day (t : datetime) : Z :=
  dt_second t + dt_minute t * 60 + dt_hour t * 3600.

(** [(a - b).days]: the difference is a [timedelta] normalised so that its
    seconds and microseconds are non-negative, which makes [days] the floor
    of the difference in days. *)
Definition timedelta_days (a b : datetime) : Z :=
  let days := toordinal (dt_year a) (dt_month a) (dt_day a)
              - toordinal (dt_year b) (dt_month b) (dt_day b) in
  let secs := seconds_of_day a - seconds_of_day b in
  let us := dt_microsecond a - dt_microsecond b in
  ((days * 86400 + secs) * 1000000 + us) / (86400 * 1000000).

(** [str(d)] for a date: [isoformat], the format ["%04d-%02d-%02d"]. *)
Definition digit_char (n : Z) : char := Z.to_N (48 + n mod 10).

Definition date_str (d : date) : str :=
  [digit_char (year d / 1000); digit_char (year d / 100);
   digit_char (year d / 10); digit_char (year d)]
  ++ py "-" ++ [digit_char (month d / 10); digit_char (month d)]
  ++ py "-" ++ [digit_char (day d / 10); digit_char (day d)].

(** ** JSON documents, as [json.load] returns them *)

#[local] Set Warnings "-register-all".

Inductive json : Type :=
| JNull
| JBool (b : bool)
| JInt (n : Z)
| JFloat (nonzero : bool)      (* a float; only its truth value is observed *)
| JStr (s : str)
| JList (l : list json)
| JDict (d : list (str * json)).

(** What opening and parsing the file at a path gives. *)
Inductive file : Type :=
| NoFile                       (* [open] raises FileNotFoundError *)
| NotJson                      (* [json.load] raises JSONDecodeError *)
| JsonFile (doc : json).

(** Truth value of a JSON value in a condition. *)
Definition truthy (j : json) : bool :=
  match j with
  | JNull => false
  | JBool b => b
  | JInt n => negb (n =? 0)
  | JFloat nonzero => nonzero
  | JStr s => negb (str_eqb s [])
  | JList l => match l with [] => false | _ => true end
  | JDict d => match d with [] => false | _ => true end
  end.

(** ** Insertion-ordered dictionaries with string keys *)

Section Dict.
Variable V : Type.

Definition dict := list (str * V).

Fixpoint dict_get (k : str) (d : dict) : option V :=
  match d with
  | [] => None
  | (k', v) :: rest => if str_eqb k k' then Some v else dict_get k rest
  end.

(** [d[k] = v]: an existing key keeps its position, a new one goes last. *)
Fixpoint dict_set (k : str) (v : V) (d : dict) : dict :=
  match d with
  | [] => [(k, v)]
  | (k', v') :: rest =>
      if str_eqb k k' then (k', v) :: rest else (k', v') :: dict_set k v rest
  end.

(** [del d[k]] for a key that may be absent. *)
Fixpoint dict_del (k : str) (d : dict) : dict :=
  match d with
  | [] => []
  | (k', v') :: rest =>
      if str_eqb k k' then rest else (k', v') :: dict_del k rest
  end.

Definition dict_mem (k : str) (d : dict) : bool :=
  match dict_get k d with Some _ => true | None => false end.

Definition keys (d : dict) : list str := List.map fst d.
End Dict.

(** [j[key]] for a string key. *)
Definition subscript (j : json) (key : str) : result json :=
  match j with
  | JDict d =>
      match dict_get key d with
      | Some v => Ok v
      | None => Raise KeyError
      end
  | _ => Raise TypeError
  end.

(** [j.items()]. *)
Definition json_items (j : json) : result (list (str * json)) :=
  match j with
  | JDict d => Ok d
  | _ => Raise AttributeError
  end.

(** [for x in j]: the elements of a list, the one-character strings of a
    string, the keys of an object. *)
Definition json_iter (j : json) : result (list json) :=
  match j with
  | JList l => Ok l
  | JStr s => Ok (List.map (fun c => JStr [c]) s)
  | JDict d => Ok (List.map (fun kv => JStr (fst kv)) d)
  | _ => Raise TypeError
  end.

(** ** The regular expressions of [_strptime] *)

Inductive regex : Type :=
| Lit (c : char)               (* one literal character *)
| Rng (lo hi : char)           (* [lo-hi] *)
| Dig                          (* \d *)
| Cat (r1 r2 : regex)
| Alt (r1 r2 : regex)          (* r1|r2, r1 tried first *)
| Grp (name : string) (r : regex).   (* (?P<name>r) *)

Definition groups := list (string * str).

Fixpoint group (name : string) (g : groups) : option str :=
  match g with
  | [] => None
  | (n, s) :: rest => if String.eqb name n then Some s else group name rest
  end.

Definition chr (s : string) : char :=
  match s with
  | String a _ => N_of_ascii a
  | EmptyString => 0%N
  end.

(** %Y, %m and %d of [TimeRE], and the pattern of the format '%Y-%m-%d'.
    The pattern is compiled with IGNORECASE, which changes nothing for
    digits, the hyphen and the blank. *)
Definition re_Y : regex := Grp "Y" (Cat Dig (Cat Dig (Cat Dig Dig))).

Definition re_m : regex :=
  Grp "m" (Alt (Cat (Lit (chr "1")) (Rng (chr "0") (chr "2")))
          (Alt (Cat (Lit (chr "0")) (Rng (chr "1") (chr "9")))
               (Rng (chr "1") (chr "9")))).

Definition re_d : regex :=
  Grp "d" (Alt (Cat (Lit (chr "3")) (Rng (chr "0") (chr "1")))
          (Alt (Cat (Rng (chr "1") (chr "2")) Dig)
          (Alt (Cat (Lit (chr "0")) (Rng (chr "1") (chr "9")))
          (Alt (Rng (chr "1") (chr "9"))
               (Cat (Lit (chr " ")) (Rng (chr "1") (chr "9"))))))).

Definition re_Ymd : regex :=
  Cat re_Y (Cat (Lit (chr "-")) (Cat re_m (Cat (Lit (chr "-")) re_d))).

(** ** The objects of the program

    A field holds one value; [Phone] and [Birthday] objects exist only with
    a value their setter accepted. *)

Record Name : Type := mkName { Name_value : str }.
Record Phone : Type := mkPhone { Phone_value : str }.
Record Birthday : Type := mkBirthday { Birthday_value : date }.

Record Record : Type := mkRecord {
  name : Name;
  phones : list Phone;
  birthday : option Birthday }.

(** The [data] of the [UserDict]: contact name to record. *)
Definition AddressBook := dict Record.

(** ** Sample data *)

Definition alice : Record :=
  mkRecord (mkName (py "Alice")) [mkPhone (py "1234567890")]
           (Some (mkBirthday (mkdate 2000 5 20))).

Definition bob : Record :=
  mkRecord (mkName (py "Bob")) [mkPhone (py "5551234567"); mkPhone (py "0987654321")]
           None.

Definition leapling : Record :=
  mkRecord (mkName (py "Carol")) [] (Some (mkBirthday (mkdate 2000 2 29))).

Definition sample_book : AddressBook :=
  [(py "Alice", alice); (py "Bob", bob); (py "Carol", leapling)].

(** Ten in the morning on the 19th, 20th and 21st of May 2024, and midnight
    of the 20th. *)
Definition morning (d : Z) : datetime := mkdatetime 2024 5 d 10 0 0 0.
Definition midnight_20_may : datetime := mkdatetime 2024 5 20 0 0 0 0.
Definition first_of_march_2023 : datetime := mkdatetime 2023 3 1 10 0 0 0.

(** ** The program, over the Unicode tables of the Python runtime *)

Section Program.

Set Default Proof Using "Type".

(** [unicode_decimal c]: the value of [c] when it is a decimal digit
    (category Nd), which is what [\d] matches and [int] converts;
    [unicode_isdigit c]: whether [c] counts as a digit for [str.isdigit];
    [str_lower]: [str.lower]. *)
Variable unicode_decimal : char -> option Z.
Variable unicode_isdigit : char -> bool.
Variable str_lower : str -> str.

(** [s.isdigit()]: every character is a digit and there is at least one. *)
Definition isdigit (s : str) : bool :=
  match s with
  | [] => false
  | _ => forallb unicode_isdigit s
  end.

(** *** Regular expression matching and [strptime]

    [re_match r s] lists the ways [r] matches a prefix of [s], in the
    order a backtracking matcher tries them: the matched text, the named
    groups and the rest of [s].  [pattern.match] returns the first. *)
Fixpoint re_match (r : regex) (s : str) : list (str * groups * str) :=
  match r with
  | Lit c =>
      match s with
      | x :: t => if N.eqb x c then [([x], [], t)] else []
      | [] => []
      end
  | Rng lo hi =>
      match s with
      | x :: t => if N.leb lo x && N.leb x hi then [([x], [], t)] else []
      | [] => []
      end
  | Dig =>
      match s with
      | x :: t =>
          match unicode_decimal x with
          | Some _ => [([x], [], t)]
          | None => []
          end
      | [] => []
      end
  | Cat r1 r2 =>
      flat_map (fun '(m1, g1, t1) =>
                  List.map (fun '(m2, g2, t2) => (m1 ++ m2, g1 ++ g2, t2))
                           (re_match r2 t1))
               (re_match r1 s)
  | Alt r1 r2 => re_match r1 s ++ re_match r2 s
  | Grp name r1 =>
      List.map (fun '(m, g, t) => (m, (name, m) :: g, t)) (re_match r1 s)
  end.

(** [int(text)] on the texts the groups can hold: decimal digits after
    optional leading blanks. *)
Fixpoint lstrip (s : str) : str :=
  match s with
  | c :: rest => if N.eqb c (chr " ") then lstrip rest else s
  | [] => []
  end.

Fixpoint int_digits (acc : Z) (s : str) : result Z :=
  match s with
  | [] => Ok acc
  | c :: rest =>
      match unicode_decimal c with
      | Some v => int_digits (acc * 10 + v) rest
      | None => Raise (ValueError "invalid literal for int()")
      end
  end.

Definition int (s : str) : result Z :=
  match lstrip s with
  | [] => Raise (ValueError "invalid literal for int()")
  | t => int_digits 0 t
  end.

Definition int_group (name : string) (g : groups) : result Z :=
  match group name g with
  | Some text => int text
  | None => Raise KeyError
  end.

(** [datetime.strptime(data_string, '%Y-%m-%d').date()]. *)
Definition strptime_Ymd (data_string : str) : result date :=
  match re_match re_Ymd data_string with
  | [] => Raise (ValueError "time data does not match format")
  | (_, found, rest) :: _ =>
      match rest with
      | _ :: _ => Raise (ValueError "unconverted data remains")
      | [] =>
          (y <- int_group "Y" found ;;
           m <- int_group "m" found ;;
           d <- int_group "d" found ;;
           date_new y m d)%result
      end
  end.

(** *** Fields *)

(** [Birthday(value)] for a string. *)
Definition Birthday_new (value : str) : result Birthday :=
  match strptime_Ymd value with
  | Ok d => Ok (mkBirthday d)
  | Raise (ValueError _) =>
      Raise (ValueError "Invalid birthday format. Use YYYY-MM-DD")
  | Raise e => Raise e
  end.

(** [Phone(value)] for a string. *)
Definition Phone_new (value : str) : result Phone :=
  if isdigit value && (List.length value =? 10)%nat then Ok (mkPhone value)
  else Raise (ValueError "Invalid phone number format. Phone not added.").

(** The same constructors on any value a JSON document can hold:
    [strptime] rejects a non-string with TypeError, and only strings have
    [isdigit]. *)
Definition Birthday_of (value : json) : result Birthday :=
  match value with
  | JStr s => Birthday_new s
  | _ => Raise TypeError
  end.

Definition Phone_of (value : json) : result Phone :=
  match value with
  | JStr s => Phone_new s
  | _ => Raise AttributeError
  end.

(** *** Record *)

(** [Record(name, birthday)]; [None] is [JNull]. *)
Definition Record_new (name : str) (birthday : json) : result Record :=
  if truthy birthday then
    (b <- Birthday_of birthday ;; Ok (mkRecord (mkName name) [] (Some b)))%result
  else Ok (mkRecord (mkName name) [] None).

Definition Record_str (self : Record) : str :=
  py "Contact name: " ++ Name_value (name self) ++ py ", phones: "
  ++ join (py "; ") (List.map Phone_value (phones self)).

Definition set_phones (ps : list Phone) (self : Record) : Record :=
  mkRecord (name self) ps (birthday self).

Definition add_phone_of (phone : json) : method Record unit :=
  fun self =>
    match Phone_of phone with
    | Ok p => (Ok tt, set_phones (phones self ++ [p]) self)
    | Raise e => (Raise e, self)
    end.

Definition add_phone (phone : str) : method Record unit :=
  add_phone_of (JStr phone).

Definition remove_phone (phone : str) : method Record unit :=
  mmodify (fun self =>
    set_phones
      (filter (fun p => negb (str_eqb (Phone_value p) phone)) (phones self))
      self).

Definition edit_phone (old_phone new_phone : str) : method Record unit :=
  fun self =>
    if negb (existsb (fun p => str_eqb (Phone_value p) old_phone) (phones self))
    then (Raise (ValueError "Phone number not found."), self)
    else (_ <- remove_phone old_phone ;; add_phone new_phone)%method self.

Definition find_phone (phone : str) (self : Record) : option Phone :=
  List.find (fun p => str_eqb (Phone_value p) phone) (phones self).

(** [days_to_birthday], with the clock reading [today]. *)
Definition days_to_birthday (today : datetime) (self : Record)
  : result (option Z) :=
  match birthday self with
  | None => Ok None
  | Some b =>
      let m := month (Birthday_value b) in
      let d := day (Birthday_value b) in
      (next_birthday <- datetime_new (dt_year today) m d ;;
       next_birthday <- (if datetime_gt today next_birthday
                         then datetime_new (dt_year today + 1) m d
                         else Ok next_birthday) ;;
       Ok (Some (timedelta_days next_birthday today)))%result
  end.

(** *** AddressBook *)

Definition add_record (record : Record) : method AddressBook unit :=
  mmodify (dict_set (Name_value (name record)) record).

(** The inner loop of [find]: append the record at the first phone that
    contains the query, then [break]. *)
Fixpoint find_phones (query : str) (record : Record) (ps : list Phone)
         (results : list Record) : list Record :=
  match ps with
  | [] => results
  | phone :: rest =>
      if str_in query (Phone_value phone) then results ++ [record]
      else find_phones query record rest results
  end.

Fixpoint find_loop (query : str) (items : list (str * Record))
         (results : list Record) : list Record :=
  match items with
  | [] => results
  | (name, record) :: rest =>
      if str_in (str_lower query) (str_lower name)
      then find_loop query rest (results ++ [record])
      else find_loop query rest
             (find_phones query record (phones record) results)
  end.

Definition find (query : str) (self : AddressBook) : list Record :=
  find_loop query self [].

Definition delete (name : str) : method AddressBook unit :=
  mmodify (fun self => if dict_mem name self then dict_del name self else self).

(** The pages [iterator(item_number)] yields when run to exhaustion. *)
Fixpoint iterator_loop (item_number : Z) (items : list (str * Record))
         (counter : Z) (result : str) : list str :=
  match items with
  | [] => []
  | (item, record) :: rest =>
      let result := result ++ item ++ py ": " ++ Record_str record in
      let counter := counter + 1 in
      if item_number <=? counter
      then result :: iterator_loop item_number rest 0 []
      else iterator_loop item_number rest counter result
  end.

Definition iterator (item_number : Z) (self : AddressBook) : list str :=
  iterator_loop item_number self 0 [].

(** The document [save_to_file] dumps; the file then parses back to it. *)
Definition record_to_json (record : Record) : json :=
  JDict [(py "phones", JList (List.map (fun phone => JStr (Phone_value phone))
                                       (phones record)));
         (py "birthday", match birthday record with
                         | Some b => JStr (date_str (Birthday_value b))
                         | None => JNull
                         end)].

Definition data_to_save (self : AddressBook) : json :=
  JDict [(py "records",
          JDict (List.map (fun '(name, record) => (name, record_to_json record))
                          self))].

Definition save_to_file (self : AddressBook) : file :=
  JsonFile (data_to_save self).

(** One turn of the loop of [load_from_file]. *)
Definition load_record (name : str) (record_data : json)
  : method AddressBook unit :=
  (b <- mlift (subscript record_data (py "birthday")) ;;
   record <- mlift (Record_new name b) ;;
   ps <- mlift (subscript record_data (py "phones")) ;;
   ps <- mlift (json_iter ps) ;;
   match mfor ps add_phone_of record with
   | (Ok _, record) => add_record record
   | (Raise e, _) => mraise e
   end)%method.

Definition load_from_file (f : file) : method AddressBook unit :=
  match f with
  | NoFile => mraise FileNotFoundError
  | NotJson => mraise JSONDecodeError
  | JsonFile data =>
      (records <- mlift (subscript data (py "records")) ;;
       items <- mlift (json_items records) ;;
       mfor items (fun '(name, record_data) => load_record name record_data))%method
  end.


(** ** Vocabulary of the properties *)

Definition all_digits (p : str) : Prop :=
  Forall (fun c => unicode_isdigit c = true) p.

Definition has_phone (phone : str) (self : Record) : Prop :=
  In phone (List.map Phone_value (phones self)).

Definition without_phone (phone : str) (ps : list Phone) : list Phone :=
  filter (fun p => negb (str_eqb (Phone_value p) phone)) ps.

(** The address books the program can build. *)
Inductive reachable : AddressBook -> Prop :=
| reach_empty : reachable []
| reach_add_record (book : AddressBook) (record : Record) :
    reachable book -> reachable (snd (add_record record book))
| reach_delete (book : AddressBook) (name : str) :
    reachable book -> reachable (snd (delete name book))
| reach_load_from_file (book : AddressBook) (f : file) :
    reachable book -> reachable (snd (load_from_file f book)).

(** Every record is stored under its own name. *)
Definition keyed_by_name (book : AddressBook) : Prop :=
  forall k r, In (k, r) book -> Name_value (name r) = k.

(** The record one turn of the loading loop builds before it stores it. *)
Definition parse_record (name : str) (record_data : json) : result Record :=
  (b <- subscript record_data (py "birthday") ;;
   record <- Record_new name b ;;
   ps <- subscript record_data (py "phones") ;;
   ps <- json_iter ps ;;
   match mfor ps add_phone_of record with
   | (Ok _, record) => Ok record
   | (Raise e, _) => Raise e
   end)%result.

(** The entries under "records" of a file the loader iterates over. *)
Definition file_records (f : file) : list (str * json) :=
  match f with
  | JsonFile (JDict d) =>
      match dict_get (py "records") d with
      | Some (JDict items) => items
      | _ => []
      end
  | _ => []
  end.

(** The two ways a stored contact matches a query in [find]. *)
Definition name_matches (query name : str) : Prop :=
  exists pre post, str_lower name = pre ++ str_lower query ++ post.

Definition phone_matches (query : str) (record : Record) : Prop :=
  exists p pre post,
    In p (phones record) /\ Phone_value p = pre ++ query ++ post.

Definition matchesb (query : str) (item : str * Record) : bool :=
  str_in (str_lower query) (str_lower (fst item))
  || existsb (fun p => str_in query (Phone_value p)) (phones (snd item)).

(** One formatted "name: contact summary" entry of a page. *)
Definition entry (item : str * Record) : str :=
  fst item ++ py ": " ++ Record_str (snd item).

(** The text of a run of entries. *)
Definition page_of (items : list (str * Record)) : str :=
  List.concat (List.map entry items).

(** What the regular expressions denote: the texts they match, with the
    named groups of the match. *)
Definition is_decimal (c : char) : Prop := unicode_decimal c <> None.

Definition in_range (lo hi : string) (c : char) : Prop :=
  (chr lo <= c <= chr hi)%N.

Inductive matches_re : regex -> str -> groups -> Prop :=
| matches_Lit c : matches_re (Lit c) [c] []
| matches_Rng lo hi c : (lo <= c <= hi)%N -> matches_re (Rng lo hi) [c] []
| matches_Dig c : is_decimal c -> matches_re Dig [c] []
| matches_Cat r1 r2 m1 g1 m2 g2 :
    matches_re r1 m1 g1 -> matches_re r2 m2 g2 ->
    matches_re (Cat r1 r2) (m1 ++ m2) (g1 ++ g2)
| matches_Alt_l r1 r2 m g : matches_re r1 m g -> matches_re (Alt r1 r2) m g
| matches_Alt_r r1 r2 m g : matches_re r2 m g -> matches_re (Alt r1 r2) m g
| matches_Grp name r m g :
    matches_re r m g -> matches_re (Grp name r) m ((name, m) :: g).

(** The texts [strptime] takes for a month and for a day of the month. *)
Definition month_text (m : str) : Prop :=
  (exists c, m = [chr "1"; c] /\ in_range "0" "2" c)
  \/ (exists c, m = [chr "0"; c] /\ in_range "1" "9" c)
  \/ (exists c, m = [c] /\ in_range "1" "9" c).

Definition day_text (d : str) : Prop :=
  (exists c, d = [chr "3"; c] /\ in_range "0" "1" c)
  \/ (exists c c', d = [c; c'] /\ in_range "1" "2" c /\ is_decimal c')
  \/ (exists c, d = [chr "0"; c] /\ in_range "1" "9" c)
  \/ (exists c, d = [c] /\ in_range "1" "9" c)
  \/ (exists c, d = [chr " "; c] /\ in_range "1" "9" c).

(** [s] reads as the date [d] for [strptime]: four decimal digits, a month
    and a day of one or two characters, separated by hyphens, that name a
    date of the calendar. *)
Definition reads_as (s : str) (d : date) : Prop :=
  exists y m dd,
    s = y ++ py "-" ++ m ++ py "-" ++ dd
    /\ List.length y = 4%nat /\ Forall is_decimal y
    /\ month_text m /\ day_text dd
    /\ int y = Ok (year d) /\ int m = Ok (month d) /\ int dd = Ok (day d)
    /\ check_date_fields (year d) (month d) (day d) = true.

(** [s] is the date [d] written strictly as YYYY-MM-DD: zero-padded ASCII
    digits, as [isoformat] writes a date of the calendar. *)
Definition strict_Ymd (s : str) (d : date) : Prop :=
  check_date_fields (year d) (month d) (day d) = true /\ s = date_str d.

(** A record as the constructors and methods leave it: every phone passed
    the check of [Phone], the birthday is a date of the calendar. *)
Definition valid_date (d : date) : Prop :=
  check_date_fields (year d) (month d) (day d) = true.

Definition record_ok (r : Record) : Prop :=
  Forall (fun p => Phone_new (Phone_value p) = Ok p) (phones r)
  /\ match birthday r with
     | Some b => valid_date (Birthday_value b)
     | None => True
     end.

(** A book of such records, with no key twice. *)
Definition book_ok (book : AddressBook) : Prop :=
  NoDup (keys book) /\ Forall (fun item => record_ok (snd item)) book.



(** A file that holds the given entries under "records" and nothing else. *)
Definition records_file (items : list (str * json)) : file :=
  JsonFile (JDict [(py "records", JDict items)]).

(** ** The console session

    What the program reads and writes besides the book: the lines waiting
    on standard input, the text written to standard output, the file at
    'address_book.json', and the clock, given by its successive readings.
    The user interface is the console one, as in [main]. *)

Definition nl : str := [10%N].

Record world : Type := mkworld {
  stdin : list str;
  stdout : str;
  disk : file;
  clock : nat -> datetime;
  ticks : nat }.

(** An exception of the program, or the end of input met by [input]. *)
Inductive raised : Type :=
| Exc (e : exn)
| EOFError.

Inductive outcome (A : Type) : Type :=
| Returned (a : A)
| Raised (x : raised).
Arguments Returned {A} a.
Arguments Raised {A} x.

Definition session : Type := AddressBook * world.

Definition action (A : Type) : Type := session -> outcome A * session.

Definition aret {A} (a : A) : action A := fun s => (Returned a, s).
Definition araise {A} (x : raised) : action A := fun s => (Raised x, s).
Definition abind {A B} (m : action A) (k : A -> action B) : action B :=
  fun s =>
    match m s with
    | (Returned a, s') => k a s'
    | (Raised x, s') => (Raised x, s')
    end.

Declare Scope action_scope.
Delimit Scope action_scope with action.
Notation "x <- m ;; k" := (abind m (fun x => k))
  (at level 61, m at next level, right associativity) : action_scope.

Definition of_result {A} (r : result A) : action A :=
  match r with
  | Ok a => aret a
  | Raise e => araise (Exc e)
  end.

(** A method of the book, run on the book of the session. *)
Definition on_book {A} (m : method AddressBook A) : action A :=
  fun s =>
    match m (fst s) with
    | (Ok a, book) => (Returned a, (book, snd s))
    | (Raise e, book) => (Raised (Exc e), (book, snd s))
    end.

Definition the_book : action AddressBook := fun s => (Returned (fst s), s).

Definition write (text : str) : action unit :=
  fun s =>
    let w := snd s in
    (Returned tt,
     (fst s, mkworld (stdin w) (stdout w ++ text) (disk w) (clock w) (ticks w))).

(** [print(text)]. *)
Definition print (text : str) : action unit := write (text ++ nl).

(** [input(prompt)]: the prompt is written, then a line is read. *)
Definition input (prompt : str) : action str :=
  (_ <- write prompt ;;
   fun s =>
     let w := snd s in
     match stdin w with
     | [] => (Raised EOFError, s)
     | line :: rest =>
         (Returned line,
          (fst s, mkworld rest (stdout w) (disk w) (clock w) (ticks w)))
     end)%action.

(** [datetime.today()]. *)
Definition today : action datetime :=
  fun s =>
    let w := snd s in
    (Returned (clock w (ticks w)),
     (fst s, mkworld (stdin w) (stdout w) (disk w) (clock w) (S (ticks w)))).

Fixpoint afor {A} (xs : list A) (body : A -> action unit) : action unit :=
  match xs with
  | [] => aret tt
  | x :: rest => (_ <- body x ;; afor rest body)%action
  end.

(** *** ConsoleInterface *)

Definition display_options : action unit :=
  (_ <- print (nl ++ py "Options:") ;;
   _ <- print (py "1. Add contact") ;;
   _ <- print (py "2. Delete contact") ;;
   _ <- print (py "3. Search contacts") ;;
   _ <- print (py "4. Show all contacts") ;;
   _ <- print (py "5. Contacts birthday") ;;
   print (py "6. Exit"))%action.

Definition get_user_choice : action str :=
  input (py "Enter your choice (1-6): ").

Definition display_message (message : str) : action unit := print message.

Definition get_user_input (prompt : str) : action str := input prompt.

(** *** The menu entries of AddressBook *)

Definition add_contact : action unit :=
  (name <- get_user_input (py "Enter contact name: ") ;;
   birthday <- get_user_input (py "Enter birthday (YYYY-MM-DD): ") ;;
   record <- of_result (Record_new name (JStr birthday)) ;;
   phone_count <-
     get_user_input (py "Enter the number of phone numbers to add: ") ;;
   record <- (match add_phone phone_count record with
              | (Ok _, record) => aret record
              | (Raise e, _) => araise (Exc e)
              end) ;;
   _ <- on_book (add_record record) ;;
   display_message (py "Contact added successfully."))%action.

Definition delete_contact : action unit :=
  (name <- get_user_input (py "Enter contact name to delete: ") ;;
   _ <- on_book (delete name) ;;
   display_message (py "Contact deleted successfully."))%action.

Definition search_contacts : action unit :=
  (query <- get_user_input (py "Enter name or phone number to search: ") ;;
   book <- the_book ;;
   match find query book with
   | [] => display_message (py "No matching contacts found.")
   | results =>
       _ <- display_message (py "Search results:") ;;
       afor results (fun result => print (Record_str result))
   end)%action.

Definition show_all_contacts : action unit :=
  (book <- the_book ;;
   match book with
   | [] => aret tt
   | _ =>
       _ <- display_message (nl ++ py "All contacts:") ;;
       afor (List.map snd book) (fun record => print (Record_str record))
   end)%action.

(** [str(n)] for an integer. *)
Definition int_str (n : Z) : str := py (NilZero.string_of_int (Z.to_int n)).

(** [record.days_to_birthday()] in the session: the clock is read only for
    a record with a birthday. *)
Definition days_to_birthday_now (record : Record) : action (option Z) :=
  match birthday record with
  | None => aret None
  | Some _ =>
      (t <- today ;; of_result (days_to_birthday t record))%action
  end.

(** The first loop of [show_all_contacts_with_birthdays]. *)
Fixpoint upcoming_loop (records : list Record)
         (upcoming_birthdays : list (Record * Z)) : action (list (Record * Z)) :=
  match records with
  | [] => aret upcoming_birthdays
  | record :: rest =>
      (days_left <- days_to_birthday_now record ;;
       match days_left with
       | Some d => upcoming_loop rest (upcoming_birthdays ++ [(record, d)])
       | None => upcoming_loop rest upcoming_birthdays
       end)%action
  end.

Definition birthday_line (record : Record) (days_left : Z) : action unit :=
  match birthday record with
  | Some b =>
      print (Name_value (name record) ++ py ": " ++ date_str (Birthday_value b)
             ++ py " (in " ++ int_str days_left ++ py " days)")
  | None => araise (Exc AttributeError)
  end.

Definition show_all_contacts_with_birthdays : action unit :=
  (_ <- today ;;
   book <- the_book ;;
   upcoming_birthdays <- upcoming_loop (List.map snd book) [] ;;
   match upcoming_birthdays with
   | [] => aret tt
   | _ =>
       _ <- display_message (nl ++ py "Upcoming birthdays:") ;;
       afor upcoming_birthdays
            (fun '(record, days_left) => birthday_line record days_left)
   end)%action.

(** *** main *)

(** [address_book.load_from_file('address_book.json')] and
    [address_book.save_to_file('address_book.json')]. *)
Definition load_address_book : action unit :=
  fun s => on_book (load_from_file (disk (snd s))) s.

Definition save_address_book : action unit :=
  fun s =>
    let w := snd s in
    (Returned tt,
     (fst s,
      mkworld (stdin w) (stdout w) (save_to_file (fst s)) (clock w) (ticks w))).

(** The [try] ... [except FileNotFoundError] at the start of [main]. *)
Definition main_load : action unit :=
  fun s =>
    match load_address_book s with
    | (Returned _, s') =>
        display_message (py "Address book loaded successfully.") s'
    | (Raised (Exc FileNotFoundError), s') =>
        display_message (py "No existing address book found.") s'
    | (Raised x, s') => (Raised x, s')
    end.

(** One entry of the menu other than '6'. *)
Definition dispatch (choice : str) : action unit :=
  if str_eqb choice (py "1") then add_contact
  else if str_eqb choice (py "2") then delete_contact
  else if str_eqb choice (py "3") then search_contacts
  else if str_eqb choice (py "4") then show_all_contacts
  else if str_eqb choice (py "5") then show_all_contacts_with_birthdays
  else display_message
         (py "Invalid choice. Please enter a number between 1 and 6.").

(** The [while True] loop, unrolled at most [fuel] times; [None] when the
    fuel runs out first. *)
Fixpoint main_loop (fuel : nat) (s : session) : option (outcome unit * session) :=
  match fuel with
  | O => None
  | S fuel =>
      match (_ <- display_options ;; get_user_choice)%action s with
      | (Raised x, s') => Some (Raised x, s')
      | (Returned choice, s') =>
          if str_eqb choice (py "6")
          then Some ((_ <- save_address_book ;;
                      display_message (py "Address book saved. Exiting..."))%action
                       s')
          else
            match dispatch choice s' with
            | (Raised x, s'') => Some (Raised x, s'')
            | (Returned _, s'') => main_loop fuel s''
            end
      end
  end.

(** [main()], started in the given world; every turn of the loop reads a
    line, so one turn more than there are lines is enough. *)
Definition main (w : world) : option (outcome unit * session) :=
  match main_load ([], w) with
  | (Raised x, s) => Some (Raised x, s)
  | (Returned _, s) => main_loop (S (List.length (stdin w))) s
  end.

(** A world for trying the session: the given lines on standard input, the
    given file on disk, nothing written yet, and a clock that stands at
    noon of 20 May 2024. *)
Definition noon (reading : nat) : datetime := mkdatetime 2024 5 20 12 0 0 0.

Definition sample_world (lines : list str) (f : file) : world :=
  mkworld lines [] f noon 0.

(** The same with a clock that stands in January 2023. *)
Definition winter_2023 (reading : nat) : datetime :=
  mkdatetime 2023 1 15 12 0 0 0.

(** How a world can change while an entry of the menu runs: lines are read
    from the front of standard input, text is added at the end of standard
    output, the clock is read, and the file is not touched. *)
Definition evolves (w w' : world) : Prop :=
  disk w' = disk w
  /\ clock w' = clock w
  /\ (ticks w <= ticks w')%nat
  /\ (exists read, stdin w = read ++ stdin w')
  /\ (exists out, stdout w' = stdout w ++ out).

Definition steady {A} (a : action A) : Prop :=
  forall s, evolves (snd s) (snd (snd (a s))).

(** The world after text was written and lines were read. *)
Definition after (w : world) (rest : list str) (out : str) : world :=
  mkworld rest (stdout w ++ out) (disk w) (clock w) (ticks w).


(** The world after the clock was read some more times. *)
Definition ticked (w : world) (t : nat) : world :=
  mkworld (stdin w) (stdout w) (disk w) (clock w) t.


(** The ASCII digits are decimal digits with their usual values. *)
Hypothesis unicode_decimal_ascii :
  forall c : char, (48 <= c <= 57)%N -> unicode_decimal c = Some (Z.of_N c - 48).


(** ** Properties *)

(** Propositional reasoning that leaves the Unicode tables out of the
    proof. *)
Ltac forget_tables :=
  try clear unicode_decimal_ascii; try clear str_lower;
  try clear unicode_isdigit; try clear unicode_decimal.
Ltac prop := forget_tables; tauto.
Ltac props := forget_tables; intuition.

(** *** Strings *)

Lemma str_eqb_eq (a b : str) : str_eqb a b = true <-> a = b.
Proof.
  unfold str_eqb. destruct (list_eq_dec N.eq_dec a b); split; congruence.
Qed.

Lemma str_eqb_refl (a : str) : str_eqb a a = true.
Proof. apply str_eqb_eq. reflexivity. Qed.

Lemma str_eqb_neq (a b : str) : str_eqb a b = false <-> a <> b.
Proof.
  unfold str_eqb. destruct (list_eq_dec N.eq_dec a b); split; congruence.
Qed.

Lemma startswith_prefix (q s : str) :
  startswith q s = true <-> exists post, s = q ++ post.
Proof.
  revert s. induction q as [|a q IH]; intros s; simpl.
  - split; eauto.
  - destruct s as [|b s].
    + split; [discriminate | intros [post H]; discriminate].
    + rewrite andb_true_iff, N.eqb_eq, IH. split.
      * intros [-> [post ->]]. eauto.
      * intros [post H]. injection H as -> ->. eauto.
Qed.

(** [q in s] holds exactly when [q] occurs in [s] as a contiguous run. *)
Lemma str_in_substring (q s : str) :
  str_in q s = true <-> exists pre post, s = pre ++ q ++ post.
Proof.
  induction s as [|b s IH]; simpl.
  - rewrite orb_false_r, startswith_prefix. split.
    + intros [post H]. exists [], post. exact H.
    + intros [pre [post H]]. destruct pre; [eauto | discriminate].
  - rewrite orb_true_iff, startswith_prefix, IH. split.
    + intros [[post H] | [pre [post H]]].
      * exists [], post. exact H.
      * exists (b :: pre), post. simpl. congruence.
    + intros [[|c pre] [post H]].
      * left. eauto.
      * right. injection H as -> ->. eauto.
Qed.

(** *** Phone *)

Lemma isdigit_all_digits (p : str) :
  isdigit p = true <-> p <> [] /\ all_digits p.
Proof.
  unfold isdigit, all_digits. destruct p as [|c p].
  - split; [discriminate | intros [H _]; congruence].
  - rewrite forallb_forall, Forall_forall. split.
    + intros H. split; [discriminate | exact H].
    + intros [_ H]. exact H.
Qed.

Lemma Phone_new_ok_iff (p : str) (ph : Phone) :
  Phone_new p = Ok ph <-> ph = mkPhone p /\ all_digits p /\ List.length p = 10%nat.
Proof.
  unfold Phone_new.
  destruct (isdigit p && (List.length p =? 10)%nat) eqn:E.
  - apply andb_true_iff in E as [Hd Hl].
    apply isdigit_all_digits in Hd as [_ Hd]. apply Nat.eqb_eq in Hl.
    split; [intros [= <-]; auto | intros [-> _]; reflexivity].
  - split; [discriminate|]. intros [_ [Hd Hl]]. exfalso.
    apply andb_false_iff in E as [E | E].
    + assert (isdigit p = true); [|congruence].
      apply isdigit_all_digits. split; [|exact Hd].
      intros ->. discriminate.
    + apply Nat.eqb_neq in E. auto.
Qed.

Lemma Phone_new_rejects (p : str) :
  ~ (all_digits p /\ List.length p = 10%nat) ->
  Phone_new p = Raise (ValueError "Invalid phone number format. Phone not added.").
Proof.
  intros H. unfold Phone_new.
  destruct (isdigit p && (List.length p =? 10)%nat) eqn:E; [|reflexivity].
  exfalso. apply H. apply andb_true_iff in E as [Hd Hl].
  apply isdigit_all_digits in Hd as [_ Hd]. apply Nat.eqb_eq in Hl. auto.
Qed.

Lemma Phone_new_cases (p : str) :
  Phone_new p = Ok (mkPhone p) \/
  Phone_new p = Raise (ValueError "Invalid phone number format. Phone not added.").
Proof. unfold Phone_new. destruct (_ && _); auto. Qed.

(** C2.  [Phone(p)] succeeds, holding [p], exactly when [p] is ten
    characters long and all of them are digits; on any other string it
    raises the validation error and no [Phone] comes into being. *)
Theorem Phone_accepts_exactly_ten_digits (p : str) :
  ((exists ph, Phone_new p = Ok ph /\ Phone_value ph = p)
   <-> all_digits p /\ List.length p = 10%nat)
  /\ (~ (all_digits p /\ List.length p = 10%nat) ->
      Phone_new p
      = Raise (ValueError "Invalid phone number format. Phone not added.")).
Proof.
  split; [split|].
  - intros [ph [H _]]. apply Phone_new_ok_iff in H as [_ H]. exact H.
  - intros [Hd Hl]. exists (mkPhone p). split; [|reflexivity].
    apply Phone_new_ok_iff. auto.
  - apply Phone_new_rejects.
Qed.

(** *** Record: editing phones *)

Lemma existsb_has_phone (phone : str) (self : Record) :
  existsb (fun p => str_eqb (Phone_value p) phone) (phones self) = true
  <-> has_phone phone self.
Proof.
  unfold has_phone. rewrite existsb_exists, in_map_iff. split.
  - intros [p [Hin H]]. apply str_eqb_eq in H. eauto.
  - intros [p [H Hin]]. exists p. split; [exact Hin|]. apply str_eqb_eq. exact H.
Qed.

Lemma without_phone_absent (phone : str) (ps : list Phone) :
  ~ In phone (List.map Phone_value (without_phone phone ps)).
Proof.
  unfold without_phone. rewrite in_map_iff. intros [p [H Hin]].
  apply filter_In in Hin as [_ Hn]. apply negb_true_iff, str_eqb_neq in Hn.
  contradiction.
Qed.

Lemma edit_phone_found (old_phone new_phone : str) (self : Record) :
  has_phone old_phone self ->
  edit_phone old_phone new_phone self
  = add_phone new_phone
      (set_phones (without_phone old_phone (phones self)) self).
Proof.
  intros H. apply existsb_has_phone in H. unfold edit_phone. rewrite H.
  reflexivity.
Qed.

(** C4.  When no phone of the record equals [old], [edit_phone] raises
    "Phone number not found." and the record is as before; when one does and
    [new] is a valid phone, every phone equal to [old] is removed and
    [Phone(new)] is appended. *)
Theorem edit_phone_spec (old_phone new_phone : str) (self : Record) :
  (~ has_phone old_phone self ->
   edit_phone old_phone new_phone self
   = (Raise (ValueError "Phone number not found."), self))
  /\ (has_phone old_phone self ->
      forall p, Phone_new new_phone = Ok p ->
      Phone_value p = new_phone /\
      edit_phone old_phone new_phone self
      = (Ok tt, set_phones (without_phone old_phone (phones self) ++ [p]) self)).
Proof.
  split.
  - intros H. unfold edit_phone.
    destruct (existsb _ (phones self)) eqn:E.
    + apply existsb_has_phone in E. contradiction.
    + reflexivity.
  - intros H p Hp. split.
    + apply Phone_new_ok_iff in Hp as [-> _]. reflexivity.
    + rewrite edit_phone_found by exact H.
      unfold add_phone, add_phone_of. simpl. rewrite Hp. reflexivity.
Qed.

(** C9.  When a phone of the record equals [old] and [new] is not a valid
    phone, [edit_phone] raises the validation error after the removal: the
    record is left with its phones other than [old] and nothing appended,
    and it differs from the record before the call. *)
Theorem edit_phone_not_atomic (old_phone new_phone : str) (self : Record) :
  has_phone old_phone self ->
  ~ (all_digits new_phone /\ List.length new_phone = 10%nat) ->
  exists self',
    edit_phone old_phone new_phone self
    = (Raise (ValueError "Invalid phone number format. Phone not added."), self')
    /\ phones self' = without_phone old_phone (phones self)
    /\ ~ has_phone old_phone self'
    /\ self' <> self.
Proof.
  intros Hold Hnew.
  exists (set_phones (without_phone old_phone (phones self)) self).
  rewrite edit_phone_found by exact Hold.
  unfold add_phone, add_phone_of. simpl.
  rewrite (Phone_new_rejects Hnew). repeat split.
  - apply without_phone_absent.
  - intros E. apply (without_phone_absent old_phone (phones self)).
    rewrite <- E in Hold at 1. exact Hold.
Qed.

(** *** Dictionaries *)

Section DictFacts.
Variable V : Type.
Implicit Types (d : dict V) (k : str) (v : V).

Lemma dict_get_set_same k v d : dict_get k (dict_set k v d) = Some v.
Proof.
  induction d as [|[k' v'] d IH]; simpl.
  - rewrite str_eqb_refl. reflexivity.
  - destruct (str_eqb k k') eqn:E; simpl; rewrite E; auto.
Qed.

Lemma dict_get_set_other k k' v d :
  k' <> k -> dict_get k' (dict_set k v d) = dict_get k' d.
Proof.
  intros Hne. induction d as [|[k0 v0] d IH]; simpl.
  - apply str_eqb_neq in Hne. rewrite Hne. reflexivity.
  - destruct (str_eqb k k0) eqn:E; simpl.
    + apply str_eqb_eq in E. subst k0.
      apply str_eqb_neq in Hne. rewrite Hne. reflexivity.
    + destruct (str_eqb k' k0); auto.
Qed.

Lemma in_keys_dict_set k k' v d :
  In k' (keys (dict_set k v d)) <-> k' = k \/ In k' (keys d).
Proof.
  induction d as [|[k0 v0] d IH]; simpl.
  - props.
  - destruct (str_eqb k k0) eqn:E; simpl.
    + apply str_eqb_eq in E. subst k0. props.
    + rewrite IH. props.
Qed.

Lemma NoDup_keys_dict_set k v d :
  NoDup (keys d) -> NoDup (keys (dict_set k v d)).
Proof.
  induction d as [|[k0 v0] d IH]; simpl; intros H.
  - constructor; [intros [] | constructor].
  - inversion H as [|? ? Hnin Hnd]; subst.
    destruct (str_eqb k k0) eqn:E; simpl.
    + constructor; assumption.
    + constructor; [|auto]. rewrite in_keys_dict_set.
      apply str_eqb_neq in E. intros [->|Hin]; congruence.
Qed.

Lemma in_dict_set k v d k' v' :
  In (k', v') (dict_set k v d) -> (k' = k /\ v' = v) \/ In (k', v') d.
Proof.
  induction d as [|[k0 v0] d IH]; simpl.
  - intros [[= <- <-]|[]]. auto.
  - destruct (str_eqb k k0) eqn:E; simpl.
    + apply str_eqb_eq in E. subst k0. intros [[= <- <-]|H]; auto.
    + intros [H|H]; [auto|]. apply IH in H. prop.
Qed.

Lemma in_dict_del k d k' v' : In (k', v') (dict_del k d) -> In (k', v') d.
Proof.
  induction d as [|[k0 v0] d IH]; simpl; [auto|].
  destruct (str_eqb k k0); simpl; props.
Qed.

Lemma NoDup_keys_dict_del k d : NoDup (keys d) -> NoDup (keys (dict_del k d)).
Proof.
  induction d as [|[k0 v0] d IH]; simpl; intros H; [constructor|].
  inversion H as [|? ? Hnin Hnd]; subst.
  destruct (str_eqb k k0); simpl; [assumption|].
  constructor; [|auto]. intros Hin. apply Hnin.
  unfold keys in *. apply in_map_iff in Hin as [[k1 v1] [<- Hin]].
  apply in_dict_del in Hin. apply in_map_iff. exists (k1, v1). auto.
Qed.

Lemma dict_get_not_in k d : ~ In k (keys d) -> dict_get k d = None.
Proof.
  induction d as [|[k0 v0] d IH]; simpl; [reflexivity|]. intros H.
  destruct (str_eqb k k0) eqn:E.
  - apply str_eqb_eq in E. subst. prop.
  - apply IH. prop.
Qed.


Lemma dict_get_some_in k v d : dict_get k d = Some v -> In (k, v) d.
Proof.
  induction d as [|[k0 v0] d IH]; simpl; [discriminate|].
  destruct (str_eqb k k0) eqn:E; [|auto].
  apply str_eqb_eq in E. intros [= ->]. subst. auto.
Qed.

End DictFacts.

(** *** Loading, as a sequence of insertions *)

Lemma add_phone_of_name (phone : json) (self : Record) :
  name (snd (add_phone_of phone self)) = name self.
Proof. unfold add_phone_of. destruct (Phone_of phone); reflexivity. Qed.

Lemma mfor_add_phone_of_name (ps : list json) (self : Record) :
  name (snd (mfor ps add_phone_of self)) = name self.
Proof.
  revert self. induction ps as [|p ps IH]; intros self; simpl; [reflexivity|].
  unfold mbind. pose proof (add_phone_of_name p self) as H.
  destruct (add_phone_of p self) as [[[]|e] self']; simpl in *.
  - rewrite IH. exact H.
  - exact H.
Qed.

Lemma parse_record_name (n : str) (record_data : json) (r : Record) :
  parse_record n record_data = Ok r -> name r = mkName n.
Proof.
  unfold parse_record, Record_new.
  destruct (subscript record_data (py "birthday")) as [b|]; simpl; [|discriminate].
  assert (forall r0, name r0 = mkName n ->
            rbind (subscript record_data (py "phones")) (fun ps =>
            rbind (json_iter ps) (fun ps =>
            match mfor ps add_phone_of r0 with
            | (Ok _, record) => Ok record
            | (Raise e, _) => Raise e
            end)) = Ok r -> name r = mkName n) as Hrest.
  { intros r0 H0.
    destruct (subscript record_data (py "phones")) as [ps|]; simpl; [|discriminate].
    destruct (json_iter ps) as [l|]; simpl; [|discriminate].
    pose proof (mfor_add_phone_of_name l r0) as Hn.
    destruct (mfor l add_phone_of r0) as [[[]|e] r1]; simpl in *; [|discriminate].
    intros [= <-]. congruence. }
  destruct (truthy b).
  - destruct (Birthday_of b); simpl; [|discriminate]. apply Hrest. reflexivity.
  - simpl. apply Hrest. reflexivity.
Qed.

Lemma load_record_parse (n : str) (record_data : json) (book : AddressBook) :
  load_record n record_data book
  = match parse_record n record_data with
    | Ok r => (Ok tt, dict_set n r book)
    | Raise e => (Raise e, book)
    end.
Proof.
  assert (load_record n record_data book
          = match parse_record n record_data with
            | Ok r => add_record r book
            | Raise e => (Raise e, book)
            end) as ->.
  { unfold load_record, parse_record, mbind, mlift.
    destruct (subscript record_data (py "birthday")) as [b|]; simpl; [|reflexivity].
    destruct (Record_new n b) as [r0|]; simpl; [|reflexivity].
    destruct (subscript record_data (py "phones")) as [ps|]; simpl; [|reflexivity].
    destruct (json_iter ps) as [l|]; simpl; [|reflexivity].
    destruct (mfor l add_phone_of r0) as [[[]|e] r1]; reflexivity. }
  destruct (parse_record n record_data) as [r|e] eqn:E; [|reflexivity].
  apply parse_record_name in E. unfold add_record, mmodify. rewrite E.
  reflexivity.
Qed.

(** A property of the book that storing a record built from the file keeps
    is kept by a load, whether it returns or raises. *)
Lemma load_from_file_preserves (P : AddressBook -> Prop) :
  (forall k rd r book, parse_record k rd = Ok r -> P book -> P (dict_set k r book)) ->
  forall f book, P book -> P (snd (load_from_file f book)).
Proof.
  intros Hset f book HP. destruct f as [| |data]; simpl; try exact HP.
  unfold mbind, mlift.
  destruct (subscript data (py "records")) as [records|]; simpl; [|exact HP].
  destruct (json_items records) as [items|]; simpl; [|exact HP].
  revert book HP. induction items as [|[n rd] items IH]; intros book HP; simpl.
  - exact HP.
  - unfold mbind. rewrite load_record_parse.
    destruct (parse_record n rd) as [r|e] eqn:E; simpl; [|exact HP].
    apply IH. eapply Hset; eassumption.
Qed.

Lemma load_from_file_loop (f : file) (book : AddressBook) :
  snd (load_from_file f book)
  = snd (mfor (file_records f) (fun '(n, rd) => load_record n rd) book)
  /\ (fst (load_from_file f book) = Ok tt ->
      load_from_file f book
      = mfor (file_records f) (fun '(n, rd) => load_record n rd) book).
Proof.
  destruct f as [| |data]; simpl; try (split; [reflexivity|discriminate]).
  unfold mbind, mlift.
  destruct data as [| | | | |l|d]; simpl; try (split; [reflexivity|discriminate]).
  destruct (dict_get (py "records") d) as [records|]; simpl;
    [|split; [reflexivity|discriminate]].
  destruct records; simpl; try (split; [reflexivity|discriminate]).
  split; reflexivity.
Qed.

Lemma load_loop_frame (items : list (str * json)) (book : AddressBook) (k : str) :
  ~ In k (keys items) ->
  dict_get k (snd (mfor items (fun '(n, rd) => load_record n rd) book))
  = dict_get k book.
Proof.
  revert book. induction items as [|[n rd] items IH]; intros book Hk; simpl.
  - reflexivity.
  - simpl in Hk. unfold mbind. rewrite load_record_parse.
    destruct (parse_record n rd) as [r|e]; simpl; [|reflexivity].
    rewrite IH by prop. apply dict_get_set_other. intros ->. prop.
Qed.

Lemma load_loop_stores (items : list (str * json)) (book book' : AddressBook) :
  NoDup (keys items) ->
  mfor items (fun '(n, rd) => load_record n rd) book = (Ok tt, book') ->
  forall k rd, In (k, rd) items ->
  exists r, parse_record k rd = Ok r /\ dict_get k book' = Some r.
Proof.
  revert book. induction items as [|[n rd0] items IH]; intros book Hnd Hrun k rd Hin.
  - destruct Hin.
  - simpl in Hnd. inversion Hnd as [|? ? Hnin Hnd']; subst.
    simpl in Hrun. unfold mbind in Hrun. rewrite load_record_parse in Hrun.
    destruct (parse_record n rd0) as [r|e] eqn:E; [|discriminate].
    destruct Hin as [[= -> ->]|Hin].
    + exists r. split; [exact E|].
      replace book' with (snd (mfor items (fun '(n, rd) => load_record n rd)
                                    (dict_set k r book)))
        by (rewrite Hrun; reflexivity).
      rewrite load_loop_frame by exact Hnin. apply dict_get_set_same.
    + eapply IH; eassumption.
Qed.

(** *** The address book as a map *)

Lemma delete_subset (n : str) (book : AddressBook) k r :
  In (k, r) (snd (delete n book)) -> In (k, r) book.
Proof.
  unfold delete, mmodify. simpl. destruct (dict_mem n book); [|auto].
  apply in_dict_del.
Qed.

Lemma reachable_invariant (book : AddressBook) :
  reachable book -> NoDup (keys book) /\ keyed_by_name book.
Proof.
  induction 1 as [|book record _ [IHn IHk]|book n _ [IHn IHk]|book f _ IH].
  - split; [constructor | intros k r []].
  - split; simpl.
    + apply NoDup_keys_dict_set. exact IHn.
    + intros k r Hin. apply in_dict_set in Hin as [[-> ->]|Hin]; auto.
  - split.
    + unfold delete, mmodify. simpl. destruct (dict_mem n book); [|exact IHn].
      apply NoDup_keys_dict_del. exact IHn.
    + intros k r Hin. apply delete_subset in Hin. auto.
  - apply (load_from_file_preserves
             (fun b => NoDup (keys b) /\ keyed_by_name b)); [|exact IH].
    intros k rd r b Hparse [Hn Hk]. apply parse_record_name in Hparse. split.
    + apply NoDup_keys_dict_set. exact Hn.
    + intros k' r' Hin. apply in_dict_set in Hin as [[-> ->]|Hin]; auto.
      rewrite Hparse. reflexivity.
Qed.

(** C8.  A book built by [add_record], [delete] and [load_from_file] holds
    at most one record per name, and [add_record] stores the record under
    its own name, replacing what was there and touching no other name. *)
Theorem one_record_per_name :
  (forall book, reachable book -> NoDup (keys book))
  /\ (forall record book,
        fst (add_record record book) = Ok tt
        /\ dict_get (Name_value (name record)) (snd (add_record record book))
           = Some record
        /\ forall k, k <> Name_value (name record) ->
             dict_get k (snd (add_record record book)) = dict_get k book).
Proof.
  split.
  - intros book H. apply reachable_invariant. exact H.
  - intros record book. simpl. split; [reflexivity|]. split.
    + apply dict_get_set_same.
    + intros k Hk. apply dict_get_set_other. exact Hk.
Qed.


(** *** find *)

Lemma find_phones_existsb (query : str) (record : Record) (ps : list Phone)
      (results : list Record) :
  find_phones query record ps results
  = if existsb (fun p => str_in query (Phone_value p)) ps
    then results ++ [record] else results.
Proof.
  induction ps as [|p ps IH]; simpl; [reflexivity|].
  destruct (str_in query (Phone_value p)); simpl; [reflexivity | exact IH].
Qed.

Lemma find_loop_filter (query : str) (items : list (str * Record))
      (results : list Record) :
  find_loop query items results
  = results ++ List.map snd (filter (matchesb query) items).
Proof.
  revert results. induction items as [|[n r] items IH]; intros results; simpl.
  - rewrite app_nil_r. reflexivity.
  - unfold matchesb at 1. simpl.
    destruct (str_in (str_lower query) (str_lower n)); simpl.
    + rewrite IH, <- app_assoc. reflexivity.
    + rewrite IH, find_phones_existsb.
      destruct (existsb _ (phones r)); simpl.
      * rewrite <- app_assoc. reflexivity.
      * reflexivity.
Qed.

Lemma matchesb_spec (query : str) (item : str * Record) :
  matchesb query item = true
  <-> name_matches query (fst item) \/ phone_matches query (snd item).
Proof.
  unfold matchesb, name_matches, phone_matches.
  rewrite orb_true_iff, str_in_substring, existsb_exists.
  apply or_iff_compat_l. split.
  - intros [p [Hin H]]. apply str_in_substring in H as [pre [post H]].
    exists p, pre, post. auto.
  - intros [p [pre [post [Hin H]]]]. exists p. split; [exact Hin|].
    apply str_in_substring. eauto.
Qed.

Lemma NoDup_keys_filter (V : Type) (f : str * V -> bool) (d : dict V) :
  NoDup (keys d) -> NoDup (keys (filter f d)).
Proof.
  induction d as [|kv d IH]; simpl; intros H; [constructor|].
  inversion H as [|? ? Hnin Hnd]; subst.
  destruct (f kv); simpl; [|auto]. constructor; [|auto].
  intros Hin. apply Hnin. unfold keys in *.
  apply in_map_iff in Hin as [kv' [E Hin]]. apply filter_In in Hin as [Hin _].
  apply in_map_iff. eauto.
Qed.

Lemma NoDup_records (book : AddressBook) :
  NoDup (keys book) -> keyed_by_name book -> NoDup (List.map snd book).
Proof.
  intros Hnd Hk.
  apply (NoDup_map_inv (fun r => Name_value (name r))).
  rewrite map_map.
  replace (List.map (fun x => Name_value (name (snd x))) book) with (keys book);
    [exact Hnd|].
  unfold keys. apply map_ext_in. intros [k r] Hin. simpl.
  symmetry. apply Hk. exact Hin.
Qed.

(** C5.  In a book that holds each record once, under its own name,
    [find(query)] returns exactly the records whose name contains the
    query when both are lower-cased, or one of whose phones contains the
    query, and returns each of them once. *)
Theorem find_returns_matches_once (query : str) (book : AddressBook) :
  NoDup (keys book) -> keyed_by_name book ->
  (forall r, In r (find query book)
             <-> In (Name_value (name r), r) book
                 /\ (name_matches query (Name_value (name r))
                     \/ phone_matches query r))
  /\ NoDup (find query book).
Proof.
  intros Hnd Hk. unfold find. rewrite find_loop_filter. simpl. split.
  - intros r. rewrite in_map_iff. split.
    + intros [[k r'] [E Hin]]. simpl in E. subst r'.
      apply filter_In in Hin as [Hin Hm]. rewrite (Hk _ _ Hin).
      split; [exact Hin|]. apply matchesb_spec in Hm. simpl in Hm.
      exact Hm.
    + intros [Hin Hm]. exists (Name_value (name r), r). split; [reflexivity|].
      apply filter_In. split; [exact Hin|]. apply matchesb_spec. exact Hm.
  - apply NoDup_records.
    + apply NoDup_keys_filter. exact Hnd.
    + intros k r Hin. apply filter_In in Hin as [Hin _]. auto.
Qed.

(** *** iterator *)

Lemma firstn_plus (A : Type) (a b : nat) (l : list A) :
  firstn (a + b) l = firstn a l ++ firstn b (skipn a l).
Proof.
  revert l. induction a as [|a IH]; intros l; simpl; [reflexivity|].
  destruct l as [|x l]; simpl.
  - rewrite firstn_nil. reflexivity.
  - rewrite IH. reflexivity.
Qed.

Lemma iterator_loop_fill (item_number : Z) (items : list (str * Record))
      (counter : Z) (result : str) :
  0 <= counter < item_number ->
  let need := Z.to_nat (item_number - counter) in
  iterator_loop item_number items counter result
  = if (List.length items <? need)%nat then []
    else (result ++ page_of (firstn need items))
           :: iterator_loop item_number (skipn need items) 0 [].
Proof.
  revert counter result.
  induction items as [|[n r] items IH]; intros counter result Hc need.
  - simpl. destruct need eqn:E; [lia|]. reflexivity.
  - simpl iterator_loop.
    destruct (item_number <=? counter + 1) eqn:E.
    + apply Z.leb_le in E. assert (need = 1%nat) as -> by lia.
      simpl. unfold page_of. simpl. unfold entry at 1. simpl.
      rewrite app_nil_r. reflexivity.
    + apply Z.leb_gt in E. rewrite IH by lia.
      assert (need = S (Z.to_nat (item_number - (counter + 1)))) as -> by lia.
      set (need' := Z.to_nat (item_number - (counter + 1))).
      simpl List.length. simpl firstn. simpl skipn.
      replace (S (List.length items) <? S need')%nat
        with (List.length items <? need')%nat by reflexivity.
      destruct (List.length items <? need')%nat; [reflexivity|].
      unfold page_of. simpl. unfold entry at 2. simpl.
      rewrite <- !app_assoc. reflexivity.
Qed.

Lemma iterator_unfold (item_number : Z) (book : AddressBook) :
  1 <= item_number ->
  let k := Z.to_nat item_number in
  iterator item_number book
  = if (List.length book <? k)%nat then []
    else page_of (firstn k book) :: iterator item_number (skipn k book).
Proof.
  intros H k. unfold iterator.
  rewrite iterator_loop_fill by lia. rewrite Z.sub_0_r. reflexivity.
Qed.

Lemma iterator_pages_upto (item_number : Z) (n : nat) (book : AddressBook) :
  1 <= item_number -> (List.length book <= n)%nat ->
  let k := Z.to_nat item_number in
  List.length (iterator item_number book) = (List.length book / k)%nat
  /\ (forall i, (i < List.length book / k)%nat ->
        nth i (iterator item_number book) []
        = page_of (firstn k (skipn (i * k) book)))
  /\ List.concat (iterator item_number book)
     = page_of (firstn (k * (List.length book / k)) book).
Proof.
  intros Hps. revert book. induction n as [|n IH]; intros book Hlen k;
    rewrite iterator_unfold by exact Hps; fold k;
    assert (Hk : (1 <= k)%nat) by (unfold k; lia).
  - destruct book; [|simpl in Hlen; lia].
    assert ((@List.length (str * Record) [] <? k)%nat = true) as ->
      by (apply Nat.ltb_lt; simpl; lia).
    simpl. rewrite Nat.Div0.div_0_l, Nat.mul_0_r. simpl.
    repeat split. intros i Hi. lia.
  - destruct (List.length book <? k)%nat eqn:E.
    + apply Nat.ltb_lt in E. rewrite (Nat.div_small _ _ E), Nat.mul_0_r.
      simpl. repeat split. intros i Hi. lia.
    + apply Nat.ltb_ge in E.
      assert (Hrest : (List.length (skipn k book) <= n)%nat)
        by (rewrite length_skipn; lia).
      destruct (IH (skipn k book) Hrest) as [IHlen [IHnth IHcat]]. fold k in IHlen, IHnth, IHcat.
      rewrite length_skipn in *.
      assert (Hdiv : (List.length book / k = S ((List.length book - k) / k))%nat).
      { replace (List.length book) with ((List.length book - k) + 1 * k)%nat at 1 by lia.
        rewrite Nat.div_add by lia. lia. }
      rewrite Hdiv. repeat split.
      * simpl. rewrite IHlen. reflexivity.
      * intros [|i] Hi; simpl nth.
        -- reflexivity.
        -- rewrite IHnth by lia. rewrite skipn_skipn.
           replace (i * k + k)%nat with (S i * k)%nat by lia. reflexivity.
      * simpl List.concat. rewrite IHcat. unfold page_of.
        rewrite <- concat_app, <- map_app. f_equal. f_equal.
        replace (k * S ((List.length book - k) / k))%nat
          with (k + k * ((List.length book - k) / k))%nat by lia.
        symmetry. apply firstn_plus.
Qed.

(** C6.  With [n] records and a page size of at least one, [iterator]
    yields [n / page_size] pages; page [i] is the text of the [page_size]
    entries from position [i * page_size] on, in the order of the book; and
    all pages together hold the first [page_size * (n / page_size)] entries,
    so the [n mod page_size] entries after the last full page are in none. *)
Theorem iterator_yields_full_pages (item_number : Z) (book : AddressBook) :
  1 <= item_number ->
  let k := Z.to_nat item_number in
  Z.of_nat (List.length (iterator item_number book))
  = Z.of_nat (List.length book) / item_number
  /\ (forall i, (i < List.length (iterator item_number book))%nat ->
        nth i (iterator item_number book) []
        = page_of (firstn k (skipn (i * k) book))
        /\ List.length (firstn k (skipn (i * k) book)) = k)
  /\ List.concat (iterator item_number book)
     = page_of (firstn (List.length book - List.length book mod k) book).
Proof.
  intros Hps k.
  destruct (@iterator_pages_upto item_number (List.length book) book Hps
              (Nat.le_refl _)) as [Hlen [Hnth Hcat]].
  fold k in Hlen, Hnth, Hcat.
  assert (Hk : (1 <= k)%nat) by (unfold k; lia).
  pose proof (Nat.div_mod_eq (List.length book) k) as Hdm.
  split; [|split].
  - rewrite Hlen, Nat2Z.inj_div. unfold k. rewrite Z2Nat.id by lia.
    reflexivity.
  - intros i Hi. rewrite Hlen in Hi. split; [apply Hnth; exact Hi|].
    rewrite length_firstn, length_skipn.
    assert (S i * k <= k * (List.length book / k))%nat by nia.
    lia.
  - rewrite Hcat. f_equal. f_equal. lia.
Qed.

(** *** days_to_birthday *)

Lemma days_to_birthday_no_birthday (today : datetime) (self : Record) :
  birthday self = None -> days_to_birthday today self = Ok None.
Proof. intros H. unfold days_to_birthday. rewrite H. reflexivity. Qed.

(** C1.  The count is taken from the clock's reading, time of day
    included, to midnight of the birthday.  For a birthday on 20 May, at
    ten in the morning: on 20 May itself the result is 364, not 0; on
    19 May it is 0, not 1; on 21 May it is 363, one day less than the days
    to next year's occurrence.  Only at midnight sharp on 20 May is it 0.
    For a birthday on 29 February the call raises in a year that is not a
    leap year. *)
Theorem days_to_birthday_counts_from_the_clock :
  days_to_birthday (morning 20) alice = Ok (Some 364)
  /\ days_to_birthday (morning 19) alice = Ok (Some 0)
  /\ days_to_birthday (morning 21) alice = Ok (Some 363)
  /\ days_to_birthday midnight_20_may alice = Ok (Some 0)
  /\ days_to_birthday first_of_march_2023 leapling
     = Raise (ValueError "date value out of range").
Proof. repeat split; vm_compute; reflexivity. Qed.

Lemma days_before_year_succ (y : Z) :
  days_before_year (y + 1)
  = days_before_year y + 365 + (if is_leap y then 1 else 0).
Proof.
  unfold days_before_year, is_leap. replace (y + 1 - 1) with y by lia.
  destruct (y mod 4 =? 0) eqn:E4; destruct (y mod 100 =? 0) eqn:E100;
    destruct (y mod 400 =? 0) eqn:E400; simpl;
    Z.div_mod_to_equations; lia.
Qed.

Ltac month_tables :=
  cbv [days_before_month days_in_month nth Z.to_nat Pos.to_nat Pos.iter_op
       Init.Nat.add Z.eqb Z.ltb Z.compare Pos.compare Pos.compare_cont Pos.eqb
       andb].

Lemma check_date_fields_bounds (y m d : Z) :
  check_date_fields y m d = true ->
  1 <= y <= 9999 /\ 1 <= m <= 12 /\ 1 <= d <= days_in_month y m.
Proof. unfold check_date_fields. lia. Qed.

Lemma month_cases (m : Z) :
  1 <= m <= 12 ->
  m = 1 \/ m = 2 \/ m = 3 \/ m = 4 \/ m = 5 \/ m = 6 \/ m = 7 \/ m = 8
  \/ m = 9 \/ m = 10 \/ m = 11 \/ m = 12.
Proof. lia. Qed.

Lemma day_of_year_bounds (y m d : Z) :
  1 <= m <= 12 -> 1 <= d <= days_in_month y m ->
  1 <= days_before_month y m + d <= 365 + (if is_leap y then 1 else 0).
Proof.
  intros Hm. apply month_cases in Hm.
  repeat (destruct Hm as [->|Hm]); try subst m; month_tables;
    destruct (is_leap y); lia.
Qed.

Lemma day_of_year_monotone (y m1 d1 m2 : Z) :
  1 <= m1 -> m1 < m2 -> m2 <= 12 -> d1 <= days_in_month y m1 ->
  days_before_month y m1 + d1 <= days_before_month y m2.
Proof.
  intros H1 H12 H2.
  assert (Hm1 : 1 <= m1 <= 12) by lia. assert (Hm2 : 1 <= m2 <= 12) by lia.
  apply month_cases in Hm1, Hm2.
  repeat (destruct Hm1 as [->|Hm1]); try subst m1;
    repeat (destruct Hm2 as [->|Hm2]); try subst m2; try lia;
    month_tables; destruct (is_leap y); lia.
Qed.

Lemma datetime_valid_bounds (t : datetime) :
  datetime_valid t = true ->
  check_date_fields (dt_year t) (dt_month t) (dt_day t) = true
  /\ 0 <= dt_hour t < 24 /\ 0 <= dt_minute t < 60 /\ 0 <= dt_second t < 60
  /\ 0 <= dt_microsecond t < 1000000.
Proof.
  unfold datetime_valid.
  destruct (check_date_fields (dt_year t) (dt_month t) (dt_day t)); simpl; lia.
Qed.

(** The part of C1 that holds: when the call returns a count, the count is
    not negative. *)
Lemma days_to_birthday_nonneg (today : datetime) (self : Record) (n : Z) :
  datetime_valid today = true ->
  days_to_birthday today self = Ok (Some n) -> 0 <= n.
Proof.
  intros Hv. apply datetime_valid_bounds in Hv as [Hc Ht].
  apply check_date_fields_bounds in Hc as [Hy [Hm Hd]].
  unfold days_to_birthday. destruct (birthday self) as [[[by_ bm bd]]|]; [|discriminate].
  simpl. unfold datetime_new.
  destruct (check_date_fields (dt_year today) bm bd) eqn:C1; simpl; [|discriminate].
  apply check_date_fields_bounds in C1 as [_ [Hbm Hbd]].
  pose proof (day_of_year_bounds (dt_year today) Hm Hd) as Bt.
  pose proof (days_before_year_succ (dt_year today)) as Hs.
  destruct (datetime_gt today _) eqn:G.
  - destruct (check_date_fields (dt_year today + 1) bm bd) eqn:C2; simpl;
      [|discriminate].
    apply check_date_fields_bounds in C2 as [_ [_ Hbd2]].
    pose proof (day_of_year_bounds (dt_year today + 1) Hbm Hbd2) as Bn.
    intros [= <-]. unfold timedelta_days, toordinal, seconds_of_day. simpl.
    apply Z.div_pos; lia.
  - intros [= <-]. unfold timedelta_days, toordinal, seconds_of_day. simpl.
    unfold datetime_gt in G. simpl in G.
    apply Z.div_pos; [|lia].
    destruct (Z_lt_le_dec (dt_month today) bm) as [Hlt|Hge].
    + pose proof (@day_of_year_monotone (dt_year today) (dt_month today)
                    (dt_day today) bm ltac:(lia) Hlt ltac:(lia) ltac:(lia)).
      lia.
    + assert (dt_month today = bm) as <- by lia.
      destruct (Z_lt_le_dec (dt_day today) bd) as [Hlt|Hge']; [lia|].
      assert (dt_day today = bd) as <- by lia. lia.
Qed.

(** Where C1 breaks: on the day of the birthday, at any time but midnight
    sharp, the count is 364 or 365 and never 0. *)
Lemma days_to_birthday_on_the_day (today : datetime) (self : Record) (b : Birthday) :
  datetime_valid today = true -> dt_year today < 9999 ->
  birthday self = Some b ->
  month (Birthday_value b) = dt_month today ->
  day (Birthday_value b) = dt_day today ->
  (dt_month today, dt_day today) <> (2, 29) ->
  0 < seconds_of_day today * 1000000 + dt_microsecond today ->
  exists n, days_to_birthday today self = Ok (Some n) /\ (n = 364 \/ n = 365).
Proof.
  intros Hv Hy9 Hb Em Ed Hfeb Hclock.
  apply datetime_valid_bounds in Hv as [Hc Ht]. pose proof Hc as Hc'.
  apply check_date_fields_bounds in Hc' as [Hy [Hm Hd]].
  unfold days_to_birthday. rewrite Hb, Em, Ed. unfold datetime_new.
  rewrite Hc. simpl.
  assert (G : datetime_gt today
                (mkdatetime (dt_year today) (dt_month today) (dt_day today) 0 0 0 0)
              = true).
  { unfold datetime_gt, seconds_of_day in *. simpl. lia. }
  rewrite G.
  assert (C2 : check_date_fields (dt_year today + 1) (dt_month today) (dt_day today)
               = true).
  { unfold check_date_fields, days_in_month in *.
    apply month_cases in Hm.
    repeat (destruct Hm as [E|Hm]; [rewrite E in *|]); try rewrite Hm in *;
      destruct (is_leap (dt_year today)); destruct (is_leap (dt_year today + 1));
      simpl in *; try lia.
    all: assert (dt_day today <> 29) by congruence; lia. }
  rewrite C2. simpl. eexists. split; [reflexivity|].
  unfold timedelta_days, toordinal, seconds_of_day in *. simpl.
  rewrite days_before_year_succ.
  assert (Hdbm : days_before_month (dt_year today + 1) (dt_month today)
                 = days_before_month (dt_year today) (dt_month today)
                   + (if 2 <? dt_month today
                      then (if is_leap (dt_year today + 1) then 1 else 0)
                           - (if is_leap (dt_year today) then 1 else 0)
                      else 0)).
  { unfold days_before_month. destruct (2 <? dt_month today);
      destruct (is_leap (dt_year today)); destruct (is_leap (dt_year today + 1));
      simpl; lia. }
  rewrite Hdbm.
  destruct (2 <? dt_month today); destruct (is_leap (dt_year today));
    destruct (is_leap (dt_year today + 1));
    Z.div_mod_to_equations; lia.
Qed.

(** At midnight sharp on the day of the birthday the count is 0. *)
Lemma days_to_birthday_at_midnight (y m d : Z) (self : Record) (b : Birthday) :
  check_date_fields y m d = true ->
  birthday self = Some b ->
  month (Birthday_value b) = m -> day (Birthday_value b) = d ->
  days_to_birthday (mkdatetime y m d 0 0 0 0) self = Ok (Some 0).
Proof.
  intros Hc Hb Em Ed. unfold days_to_birthday. rewrite Hb, Em, Ed.
  unfold datetime_new. simpl. rewrite Hc. simpl.
  assert (datetime_gt (mkdatetime y m d 0 0 0 0) (mkdatetime y m d 0 0 0 0) = false)
    as -> by (unfold datetime_gt; simpl; lia).
  simpl. unfold timedelta_days. simpl.
  rewrite Z.sub_diag. reflexivity.
Qed.

(** *** Regular expressions: the matcher against what they denote *)

Lemma re_match_sound (r : regex) (s m t : str) (g : groups) :
  In (m, g, t) (re_match r s) -> s = m ++ t /\ matches_re r m g.
Proof.
  revert s m t g. induction r as [c|lo hi| |r1 IH1 r2 IH2|r1 IH1 r2 IH2|n r IH];
    intros s m t g; simpl.
  - destruct s as [|x s]; [intros []|].
    destruct (N.eqb_spec x c); [|intros []].
    intros [[= <- <- <-]|[]]. subst. split; [reflexivity | constructor].
  - destruct s as [|x s]; [intros []|].
    destruct (N.leb_spec lo x); [|intros []].
    destruct (N.leb_spec x hi); [|intros []].
    intros [[= <- <- <-]|[]]. split; [reflexivity | constructor; lia].
  - destruct s as [|x s]; [intros []|].
    destruct (unicode_decimal x) eqn:E; [|intros []].
    intros [[= <- <- <-]|[]]. split; [reflexivity|].
    constructor. unfold is_decimal. congruence.
  - rewrite in_flat_map. intros [[[m1 g1] t1] [H1 H2]].
    apply in_map_iff in H2 as [[[m2 g2] t2] [[= <- <- <-] H2]].
    apply IH1 in H1 as [-> H1]. apply IH2 in H2 as [-> H2].
    split; [rewrite app_assoc; reflexivity | constructor; assumption].
  - rewrite in_app_iff. intros [H|H].
    + apply IH1 in H as [-> H]. split; [reflexivity|]. apply matches_Alt_l, H.
    + apply IH2 in H as [-> H]. split; [reflexivity|]. apply matches_Alt_r, H.
  - rewrite in_map_iff. intros [[[m' g'] t'] [[= <- <- <-] H]].
    apply IH in H as [-> H]. split; [reflexivity | constructor; exact H].
Qed.

Lemma re_match_complete (r : regex) (m : str) (g : groups) :
  matches_re r m g -> forall t, In (m, g, t) (re_match r (m ++ t)).
Proof.
  induction 1 as [c|lo hi c Hc|c Hc|r1 r2 m1 g1 m2 g2 _ IH1 _ IH2
                  |r1 r2 m g _ IH|r1 r2 m g _ IH|n r m g _ IH]; intros t; simpl.
  - rewrite N.eqb_refl. left. reflexivity.
  - destruct (N.leb_spec lo c); [|lia]. destruct (N.leb_spec c hi); [|lia].
    left. reflexivity.
  - unfold is_decimal in Hc. destruct (unicode_decimal c); [|congruence].
    left. reflexivity.
  - apply in_flat_map. exists (m1, g1, m2 ++ t). split.
    + rewrite <- app_assoc. apply IH1.
    + apply in_map_iff. exists (m2, g2, t). split; [reflexivity | apply IH2].
  - apply in_app_iff. left. apply IH.
  - apply in_app_iff. right. apply IH.
  - apply in_map_iff. exists (m, g, t). split; [reflexivity | apply IH].
Qed.

(** The first way [Cat r1 r2] matches, from the first ways of its parts. *)
Lemma re_match_Cat_first (r1 r2 : regex) (s m1 t1 m2 t2 : str) (g1 g2 : groups) l1 l2 :
  re_match r1 s = (m1, g1, t1) :: l1 ->
  re_match r2 t1 = (m2, g2, t2) :: l2 ->
  exists l, re_match (Cat r1 r2) s = (m1 ++ m2, g1 ++ g2, t2) :: l.
Proof.
  intros H1 H2. simpl. rewrite H1. simpl. rewrite H2. simpl. eauto.
Qed.

Ltac decide_chars :=
  repeat (simpl;
    match goal with
    | |- context [N.eqb ?a ?b] => destruct (N.eqb_spec a b); try lia
    | |- context [N.leb ?a ?b] => destruct (N.leb_spec a b); try lia
    | H : is_decimal ?c |- context [unicode_decimal ?c] =>
        let E := fresh "E" in
        destruct (unicode_decimal c) eqn:E; [|contradiction]
    | |- context [unicode_decimal ?c] => destruct (unicode_decimal c)
    end).

Lemma re_Y_first (y t : str) :
  List.length y = 4%nat -> Forall is_decimal y ->
  re_match re_Y (y ++ t) = [(y, [("Y"%string, y)], t)].
Proof.
  intros Hlen Hdec.
  destruct y as [|a [|b [|c [|d [|? ?]]]]]; try discriminate.
  inversion Hdec as [|? ? Ha Hdec1]; subst.
  inversion Hdec1 as [|? ? Hb Hdec2]; subst.
  inversion Hdec2 as [|? ? Hc Hdec3]; subst.
  inversion Hdec3 as [|? ? Hd _]; subst.
  unfold is_decimal in *. simpl.
  destruct (unicode_decimal a); [|congruence]. simpl.
  destruct (unicode_decimal b); [|congruence]. simpl.
  destruct (unicode_decimal c); [|congruence]. simpl.
  destruct (unicode_decimal d); [|congruence]. reflexivity.
Qed.

Lemma re_m_first (m t : str) :
  month_text m ->
  exists l, re_match re_m (m ++ chr "-" :: t)
            = (m, [("m"%string, m)], chr "-" :: t) :: l.
Proof.
  unfold month_text, in_range. simpl.
  intros [[c [-> H]]|[[c [-> H]]|[c [-> H]]]]; decide_chars; simpl; eexists; reflexivity.
Qed.

Lemma re_d_first (d : str) :
  day_text d ->
  exists l, re_match re_d d = (d, [("d"%string, d)], []) :: l.
Proof.
  unfold day_text, in_range. simpl.
  intros [[c [-> H]]|[[c [c' [-> [H H']]]]|[[c [-> H]]|[[c [-> H]]|[c [-> H]]]]]];
    decide_chars; simpl; eexists; reflexivity.
Qed.

(** *** strptime with '%Y-%m-%d' *)

Lemma re_Ymd_first (y m dd : str) :
  List.length y = 4%nat -> Forall is_decimal y -> month_text m -> day_text dd ->
  exists l,
    re_match re_Ymd (y ++ py "-" ++ m ++ py "-" ++ dd)
    = (y ++ py "-" ++ m ++ py "-" ++ dd,
       [("Y"%string, y); ("m"%string, m); ("d"%string, dd)], []) :: l.
Proof.
  intros Hlen Hy Hm Hd.
  destruct (re_d_first Hd) as [ld Ed].
  destruct (re_m_first dd Hm) as [lm Em].
  assert (Hdash : forall t, re_match (Lit (chr "-")) (chr "-" :: t)
                            = [([chr "-"], [], t)]) by reflexivity.
  destruct (re_match_Cat_first (Lit (chr "-")) re_d _ (Hdash dd) Ed) as [l1 E1].
  destruct (re_match_Cat_first re_m _ _ Em E1) as [l2 E2].
  destruct (re_match_Cat_first (Lit (chr "-")) _ _ (Hdash _) E2) as [l3 E3].
  destruct (re_match_Cat_first re_Y _ _ (re_Y_first _ Hlen Hy) E3) as [l4 E4].
  exists l4. unfold re_Ymd. change (py "-") with [chr "-"]. simpl app in *.
  rewrite E4. reflexivity.
Qed.

Lemma date_new_ok (y m d : Z) (x : date) :
  date_new y m d = Ok x <-> x = mkdate y m d /\ check_date_fields y m d = true.
Proof.
  unfold date_new. destruct (check_date_fields y m d).
  - split; [intros [= <-]; auto | intros [-> _]; reflexivity].
  - split; [discriminate | intros [_ H]; discriminate].
Qed.

Lemma strptime_reads (s : str) (d : date) :
  reads_as s d -> strptime_Ymd s = Ok d.
Proof.
  intros [y [m [dd [-> [Hlen [Hy [Hm [Hd [Iy [Im [Id Hc]]]]]]]]]]].
  destruct (re_Ymd_first Hlen Hy Hm Hd) as [l E].
  unfold strptime_Ymd. rewrite E. unfold int_group. simpl.
  rewrite Iy, Im, Id. simpl. apply date_new_ok. destruct d; auto.
Qed.

Ltac invert_matches :=
  repeat match goal with
  | H : matches_re (Lit _) _ _ |- _ => inversion H; subst; clear H
  | H : matches_re (Rng _ _) _ _ |- _ => inversion H; subst; clear H
  | H : matches_re Dig _ _ |- _ => inversion H; subst; clear H
  | H : matches_re (Cat _ _) _ _ |- _ => inversion H; subst; clear H
  | H : matches_re (Alt _ _) _ _ |- _ => inversion H; subst; clear H
  | H : matches_re (Grp _ _) _ _ |- _ => inversion H; subst; clear H
  end.

Lemma matches_re_Y (y : str) (g : groups) :
  matches_re re_Y y g ->
  g = [("Y"%string, y)] /\ List.length y = 4%nat /\ Forall is_decimal y.
Proof.
  unfold re_Y. intros H. invert_matches. simpl.
  repeat split; repeat constructor; assumption.
Qed.

Lemma matches_re_m (m : str) (g : groups) :
  matches_re re_m m g -> g = [("m"%string, m)] /\ month_text m.
Proof.
  unfold re_m, month_text, in_range. intros H. invert_matches; simpl;
    (split; [reflexivity|]); eauto 8.
Qed.

Lemma matches_re_d (d : str) (g : groups) :
  matches_re re_d d g -> g = [("d"%string, d)] /\ day_text d.
Proof.
  unfold re_d, day_text, in_range. intros H. invert_matches; simpl;
    (split; [reflexivity|]); eauto 12.
Qed.

Lemma strptime_ok_reads (s : str) (d : date) :
  strptime_Ymd s = Ok d -> reads_as s d.
Proof.
  unfold strptime_Ymd.
  destruct (re_match re_Ymd s) as [|[[m g] rest] l] eqn:E; [discriminate|].
  destruct rest as [|? ?]; [|discriminate].
  assert (Hin : In (m, g, []) (re_match re_Ymd s)) by (rewrite E; left; reflexivity).
  apply re_match_sound in Hin as [Hs Hm]. rewrite app_nil_r in Hs. subst m.
  unfold re_Ymd in Hm.
  inversion Hm as [| | |? ? y gy ? ? HY H1| | |]; subst; clear Hm.
  inversion H1 as [| | |? ? ? ? ? ? Hd1 H2| | |]; subst; clear H1.
  inversion H2 as [| | |? ? mm gm ? ? HM H3| | |]; subst; clear H2.
  inversion H3 as [| | |? ? ? ? dd gd Hd2 HD| | |]; subst; clear H3.
  inversion Hd1; subst; clear Hd1. inversion Hd2; subst; clear Hd2.
  apply matches_re_Y in HY as [-> [Hlen Hy]].
  apply matches_re_m in HM as [-> HM].
  apply matches_re_d in HD as [-> HD].
  unfold int_group. simpl.
  destruct (int y) as [vy|] eqn:Iy; simpl; [|discriminate].
  destruct (int mm) as [vm|] eqn:Im; simpl; [|discriminate].
  destruct (int dd) as [vd|] eqn:Id; simpl; [|discriminate].
  intros Hnew. apply date_new_ok in Hnew as [-> Hc].
  exists y, mm, dd. simpl. repeat split; assumption.
Qed.

(** [strptime] returns a date exactly for the texts that read as it, and
    raises ValueError on all others. *)
Lemma strptime_Ymd_spec (s : str) (d : date) :
  strptime_Ymd s = Ok d <-> reads_as s d.
Proof. split; [apply strptime_ok_reads | apply strptime_reads]. Qed.

Lemma int_digits_raises (s : str) (acc : Z) :
  (exists v, int_digits acc s = Ok v)
  \/ exists msg, int_digits acc s = Raise (ValueError msg).
Proof.
  revert acc. induction s as [|c s IH]; intros acc; simpl; [eauto|].
  destruct (unicode_decimal c); eauto.
Qed.

Lemma int_raises (s : str) :
  (exists v, int s = Ok v) \/ exists msg, int s = Raise (ValueError msg).
Proof.
  unfold int. destruct (lstrip s); [eauto | apply int_digits_raises].
Qed.

Lemma strptime_raises_ValueError (s : str) :
  (exists d, strptime_Ymd s = Ok d)
  \/ exists msg, strptime_Ymd s = Raise (ValueError msg).
Proof.
  destruct (strptime_Ymd s) as [d|e] eqn:E; [eauto|]. right.
  revert E. unfold strptime_Ymd.
  destruct (re_match re_Ymd s) as [|[[m g] rest] l] eqn:Em; [intros [= <-]; eauto|].
  destruct rest as [|? ?]; [|intros [= <-]; eauto].
  assert (Hin : In (m, g, []) (re_match re_Ymd s)) by (rewrite Em; left; reflexivity).
  apply re_match_sound in Hin as [_ Hm]. unfold re_Ymd in Hm.
  inversion Hm as [| | |? ? y gy ? ? HY H1| | |]; subst; clear Hm.
  inversion H1 as [| | |? ? ? ? ? ? Hd1 H2| | |]; subst; clear H1.
  inversion H2 as [| | |? ? mm gm ? ? HM H3| | |]; subst; clear H2.
  inversion H3 as [| | |? ? ? ? dd gd Hd2 HD| | |]; subst; clear H3.
  inversion Hd1; subst; clear Hd1. inversion Hd2; subst; clear Hd2.
  apply matches_re_Y in HY as [-> _].
  apply matches_re_m in HM as [-> _].
  apply matches_re_d in HD as [-> _].
  unfold int_group. simpl.
  destruct (int_raises y) as [[vy ->]|[msg ->]]; simpl; [|intros [= <-]; eauto].
  destruct (int_raises mm) as [[vm ->]|[msg ->]]; simpl; [|intros [= <-]; eauto].
  destruct (int_raises dd) as [[vd ->]|[msg ->]]; simpl; [|intros [= <-]; eauto].
  unfold date_new. destruct (check_date_fields vy vm vd); intros [= <-]; eauto.
Qed.

Lemma Birthday_new_spec (s : str) (b : Birthday) :
  Birthday_new s = Ok b <-> reads_as s (Birthday_value b).
Proof.
  rewrite <- strptime_Ymd_spec. unfold Birthday_new.
  destruct (strptime_Ymd s) as [d|e]; [|destruct e]; destruct b as [d']; simpl;
    split; try discriminate; congruence.
Qed.

Lemma Birthday_new_raises (s : str) :
  (exists b, Birthday_new s = Ok b)
  \/ Birthday_new s = Raise (ValueError "Invalid birthday format. Use YYYY-MM-DD").
Proof.
  unfold Birthday_new.
  destruct (strptime_raises_ValueError s) as [[d ->]|[msg ->]]; eauto.
Qed.

(** *** Dates written by [isoformat] read back *)

Lemma digit_char_range (n : Z) : (48 <= digit_char n <= 57)%N.
Proof.
  unfold digit_char. pose proof (Z.mod_pos_bound n 10 ltac:(lia)). lia.
Qed.

Lemma unicode_decimal_digit_char (n : Z) :
  unicode_decimal (digit_char n) = Some (n mod 10).
Proof using unicode_decimal_ascii.
  rewrite unicode_decimal_ascii by apply digit_char_range.
  unfold digit_char. pose proof (Z.mod_pos_bound n 10 ltac:(lia)).
  f_equal. lia.
Qed.

Lemma is_decimal_digit_char (n : Z) : is_decimal (digit_char n).
Proof using unicode_decimal_ascii. unfold is_decimal. rewrite unicode_decimal_digit_char. discriminate. Qed.

Lemma lstrip_digit_char (n : Z) (s : str) :
  lstrip (digit_char n :: s) = digit_char n :: s.
Proof.
  simpl. pose proof (digit_char_range n).
  destruct (N.eqb_spec (digit_char n) 32) as [E|_]; [|reflexivity].
  rewrite E in H. lia.
Qed.

Lemma int_two_digits (a b : Z) :
  int [digit_char a; digit_char b] = Ok (a mod 10 * 10 + b mod 10).
Proof using unicode_decimal_ascii.
  unfold int. rewrite lstrip_digit_char. simpl.
  rewrite !unicode_decimal_digit_char. reflexivity.
Qed.

Lemma int_four_digits (y : Z) :
  0 <= y <= 9999 ->
  int [digit_char (y / 1000); digit_char (y / 100); digit_char (y / 10);
       digit_char y] = Ok y.
Proof using unicode_decimal_ascii.
  intros H. unfold int. rewrite lstrip_digit_char. simpl.
  rewrite !unicode_decimal_digit_char. f_equal.
  Z.div_mod_to_equations. lia.
Qed.

Lemma days_in_month_le_31 (y m : Z) : days_in_month y m <= 31.
Proof.
  unfold days_in_month. destruct ((m =? 2) && is_leap y); [lia|].
  generalize (Z.to_nat m) as k. intros k.
  do 13 (destruct k as [|k]; [simpl; lia|]).
  destruct k; simpl; lia.
Qed.

Lemma month_text_two_digits (m : Z) :
  1 <= m <= 12 -> month_text [digit_char (m / 10); digit_char m].
Proof.
  intros H. unfold month_text, in_range.
  assert (m = 1 \/ m = 2 \/ m = 3 \/ m = 4 \/ m = 5 \/ m = 6 \/ m = 7 \/ m = 8
          \/ m = 9 \/ m = 10 \/ m = 11 \/ m = 12) as Hm by lia.
  repeat (destruct Hm as [->|Hm]); try subst m;
    first [ left; eexists; split; [reflexivity | vm_compute; split; discriminate]
          | right; left; eexists; split;
            [reflexivity | vm_compute; split; discriminate] ].
Qed.

Lemma day_text_two_digits (d : Z) :
  1 <= d <= 31 -> day_text [digit_char (d / 10); digit_char d].
Proof using unicode_decimal_ascii.
  intros H. unfold day_text, in_range.
  change (chr "0") with 48%N. change (chr "1") with 49%N.
  change (chr "2") with 50%N. change (chr "3") with 51%N.
  change (chr "9") with 57%N.
  destruct (Z_lt_le_dec d 10) as [H1|H1].
  - right. right. left. exists (digit_char d). split.
    + f_equal. rewrite Z.div_small by lia. reflexivity.
    + unfold digit_char. rewrite Z.mod_small by lia. lia.
  - destruct (Z_lt_le_dec d 30) as [H2|H2].
    + right. left. exists (digit_char (d / 10)), (digit_char d).
      split; [reflexivity|]. split; [|apply is_decimal_digit_char].
      unfold digit_char. assert (d / 10 = 1 \/ d / 10 = 2) as [->| ->]
        by (Z.div_mod_to_equations; lia); vm_compute; split; discriminate.
    + left. exists (digit_char d). split.
      * f_equal. assert (d / 10 = 3) as -> by (Z.div_mod_to_equations; lia).
        reflexivity.
      * assert (d = 30 \/ d = 31) as [->| ->] by lia; vm_compute;
          split; discriminate.
Qed.

Lemma date_str_reads (d : date) :
  check_date_fields (year d) (month d) (day d) = true ->
  reads_as (date_str d) d.
Proof using unicode_decimal_ascii.
  intros Hc. pose proof (check_date_fields_bounds _ _ _ Hc) as [Hy [Hm Hd]].
  pose proof (days_in_month_le_31 (year d) (month d)) as H31.
  exists [digit_char (year d / 1000); digit_char (year d / 100);
          digit_char (year d / 10); digit_char (year d)],
         [digit_char (month d / 10); digit_char (month d)],
         [digit_char (day d / 10); digit_char (day d)].
  split; [reflexivity|]. split; [reflexivity|].
  split; [repeat constructor; apply is_decimal_digit_char|].
  split; [apply month_text_two_digits; lia|].
  split; [apply day_text_two_digits; lia|].
  split; [apply int_four_digits; lia|].
  split; [|split; [|exact Hc]].
  - rewrite int_two_digits. f_equal. Z.div_mod_to_equations. lia.
  - rewrite int_two_digits. f_equal. Z.div_mod_to_equations. lia.
Qed.

Lemma Birthday_new_date_str (b : Birthday) :
  check_date_fields (year (Birthday_value b)) (month (Birthday_value b))
                    (day (Birthday_value b)) = true ->
  Birthday_new (date_str (Birthday_value b)) = Ok b.
Proof using unicode_decimal_ascii. intros H. apply Birthday_new_spec, date_str_reads, H. Qed.

Lemma date_str_length (d : date) : List.length (date_str d) = 10%nat.
Proof. reflexivity. Qed.

(** C7.  [Birthday(s)] succeeds exactly on the strings that read as a date
    for [strptime] with '%Y-%m-%d' and then holds that date; every date of
    the calendar written strictly as YYYY-MM-DD is among them; every other
    string raises "Invalid birthday format. Use YYYY-MM-DD" and no
    [Birthday] comes into being. *)
Theorem Birthday_accepts_what_strptime_reads (s : str) :
  (forall b, Birthday_new s = Ok b <-> reads_as s (Birthday_value b))
  /\ (forall d, strict_Ymd s d -> Birthday_new s = Ok (mkBirthday d))
  /\ ((forall d, ~ reads_as s d) ->
      Birthday_new s
      = Raise (ValueError "Invalid birthday format. Use YYYY-MM-DD")).
Proof using unicode_decimal_ascii.
  split; [|split].
  - intros b. apply Birthday_new_spec.
  - intros d [Hc ->]. apply (Birthday_new_date_str (mkBirthday d)). exact Hc.
  - intros Hno. destruct (Birthday_new_raises s) as [[b Hb]|H]; [|exact H].
    apply Birthday_new_spec in Hb. exfalso. exact (Hno _ Hb).
Qed.

(** *** Saving, then loading *)










(** *** Records and books stay well formed *)

Lemma Birthday_new_valid (s : str) (b : Birthday) :
  Birthday_new s = Ok b -> valid_date (Birthday_value b).
Proof.
  intros H. apply Birthday_new_spec in H.
  destruct H as [y [m [dd [_ [_ [_ [_ [_ [_ [_ [_ Hc]]]]]]]]]]]. exact Hc.
Qed.

Lemma Record_new_ok (n : str) (b : json) (r : Record) :
  Record_new n b = Ok r -> record_ok r.
Proof.
  unfold Record_new. destruct (truthy b).
  - destruct b; simpl; try discriminate.
    destruct (Birthday_new s) as [bd|] eqn:E; simpl; [|discriminate].
    intros [= <-]. split; [constructor|]. simpl.
    eapply Birthday_new_valid. exact E.
  - intros [= <-]. split; [constructor | exact I].
Qed.

Lemma Phone_new_idem (s : str) (p : Phone) :
  Phone_new s = Ok p -> Phone_new (Phone_value p) = Ok p.
Proof.
  intros H. pose proof H as H'. apply Phone_new_ok_iff in H' as [-> _].
  exact H.
Qed.

Lemma add_phone_of_ok (phone : json) (self : Record) :
  record_ok self -> record_ok (snd (add_phone_of phone self)).
Proof.
  intros [Hps Hb]. unfold add_phone_of.
  destruct (Phone_of phone) as [p|] eqn:E; simpl; [|split; assumption].
  split; [|exact Hb]. apply Forall_app. split; [exact Hps|].
  constructor; [|constructor].
  destruct phone; simpl in E; try discriminate.
  eapply Phone_new_idem. exact E.
Qed.

Lemma add_phone_ok (phone : str) (self : Record) :
  record_ok self -> record_ok (snd (add_phone phone self)).
Proof. apply add_phone_of_ok. Qed.

Lemma remove_phone_ok (phone : str) (self : Record) :
  record_ok self -> record_ok (snd (remove_phone phone self)).
Proof.
  intros [Hps Hb]. split; [|exact Hb]. simpl.
  apply Forall_forall. intros p Hin. apply filter_In in Hin as [Hin _].
  rewrite Forall_forall in Hps. auto.
Qed.

Lemma edit_phone_ok (old_phone new_phone : str) (self : Record) :
  record_ok self -> record_ok (snd (edit_phone old_phone new_phone self)).
Proof.
  intros H. unfold edit_phone.
  destruct (negb (existsb _ (phones self))); [exact H|].
  unfold mbind. simpl.
  apply (remove_phone_ok old_phone), (add_phone_ok new_phone) in H.
  exact H.
Qed.

Lemma mfor_add_phone_of_ok (ps : list json) (self : Record) :
  record_ok self -> record_ok (snd (mfor ps add_phone_of self)).
Proof.
  revert self. induction ps as [|p ps IH]; intros self H; simpl; [exact H|].
  unfold mbind. pose proof (add_phone_of_ok p H) as H1.
  destruct (add_phone_of p self) as [[[]|e] self']; simpl in *; auto.
Qed.

Lemma parse_record_ok (n : str) (record_data : json) (r : Record) :
  parse_record n record_data = Ok r -> record_ok r.
Proof.
  unfold parse_record.
  destruct (subscript record_data (py "birthday")) as [b|]; simpl; [|discriminate].
  destruct (Record_new n b) as [r0|] eqn:E0; simpl; [|discriminate].
  apply Record_new_ok in E0.
  destruct (subscript record_data (py "phones")) as [ps|]; simpl; [|discriminate].
  destruct (json_iter ps) as [l|]; simpl; [|discriminate].
  pose proof (mfor_add_phone_of_ok l E0) as H.
  destruct (mfor l add_phone_of r0) as [[[]|e] r1]; simpl in *; [|discriminate].
  intros [= <-]. exact H.
Qed.

Lemma Forall_dict_set (V : Type) (Q : str * V -> Prop) (k : str) (v : V)
      (d : dict V) :
  (forall k', Q (k', v)) -> Forall Q d -> Forall Q (dict_set k v d).
Proof.
  intros Hv. induction d as [|[k0 v0] d IH]; simpl; intros H.
  - constructor; [apply Hv | constructor].
  - inversion H as [|? ? H0 Hd]; subst.
    destruct (str_eqb k k0); constructor; auto.
Qed.

Lemma Forall_dict_del (V : Type) (Q : str * V -> Prop) (k : str) (d : dict V) :
  Forall Q d -> Forall Q (dict_del k d).
Proof.
  induction d as [|[k0 v0] d IH]; simpl; intros H; [constructor|].
  inversion H as [|? ? H0 Hd]; subst.
  destruct (str_eqb k k0); [exact Hd | constructor; auto].
Qed.

Lemma add_record_ok (record : Record) (book : AddressBook) :
  record_ok record -> book_ok book -> book_ok (snd (add_record record book)).
Proof.
  intros Hr [Hnd Hok]. split; simpl.
  - apply NoDup_keys_dict_set. exact Hnd.
  - apply Forall_dict_set; [intros k0; exact Hr | exact Hok].
Qed.

Lemma delete_ok (n : str) (book : AddressBook) :
  book_ok book -> book_ok (snd (delete n book)).
Proof.
  intros [Hnd Hok]. unfold delete, mmodify. simpl.
  destruct (dict_mem n book); [|split; assumption]. split.
  - apply NoDup_keys_dict_del. exact Hnd.
  - apply Forall_dict_del. exact Hok.
Qed.

Lemma load_from_file_ok (f : file) (book : AddressBook) :
  book_ok book -> book_ok (snd (load_from_file f book)).
Proof.
  apply (load_from_file_preserves book_ok).
  intros k rd r b Hparse Hb. apply parse_record_ok in Hparse.
  destruct Hb as [Hnd Hok]. split.
  - apply NoDup_keys_dict_set. exact Hnd.
  - apply Forall_dict_set; [intros k0; exact Hparse | exact Hok].
Qed.

(** *** More on days_to_birthday *)

Lemma time_of_day_bounds (t : datetime) :
  0 <= dt_hour t < 24 -> 0 <= dt_minute t < 60 -> 0 <= dt_second t < 60 ->
  0 <= dt_microsecond t < 1000000 ->
  0 <= seconds_of_day t * 1000000 + dt_microsecond t < 86400 * 1000000.
Proof. unfold seconds_of_day. lia. Qed.

(** The count between two datetimes of which the second is at midnight:
    whole days between the dates, one less when the clock is past
    midnight. *)
Lemma timedelta_days_to_midnight (y m d : Z) (today : datetime) :
  0 <= seconds_of_day today * 1000000 + dt_microsecond today < 86400 * 1000000 ->
  timedelta_days (mkdatetime y m d 0 0 0 0) today
  = toordinal y m d - toordinal (dt_year today) (dt_month today) (dt_day today)
    - (if seconds_of_day today * 1000000 + dt_microsecond today =? 0
       then 0 else 1).
Proof.
  intros H. unfold timedelta_days.
  change (seconds_of_day (mkdatetime y m d 0 0 0 0)) with 0.
  cbn [dt_year dt_month dt_day dt_microsecond].
  set (D := toordinal y m d - toordinal _ _ _).
  set (s := seconds_of_day today) in *. set (us := dt_microsecond today) in *.
  destruct (Z.eqb_spec (s * 1000000 + us) 0) as [E|E]; symmetry.
  - apply (Z.div_unique _ _ _ 0); lia.
  - apply (Z.div_unique _ _ _ (86400 * 1000000 - (s * 1000000 + us))); lia.
Qed.

Lemma datetime_gt_midnight (today : datetime) (m d : Z) :
  datetime_valid today = true ->
  1 <= m <= 12 -> 1 <= d <= days_in_month (dt_year today) m ->
  datetime_gt today (mkdatetime (dt_year today) m d 0 0 0 0)
  = (let D := toordinal (dt_year today) m d
              - toordinal (dt_year today) (dt_month today) (dt_day today) in
     (D <? 0)
     || ((D =? 0)
         && negb (seconds_of_day today * 1000000 + dt_microsecond today =? 0))).
Proof.
  intros Hv Hm Hd. apply datetime_valid_bounds in Hv as [Hc Ht].
  apply check_date_fields_bounds in Hc as [Hy [Hmt Hdt]].
  unfold datetime_gt, toordinal, seconds_of_day. simpl.
  destruct (Z.compare_spec (dt_month today) m) as [E|Hlt|Hgt].
  - rewrite E in *. lia.
  - pose proof (@day_of_year_monotone (dt_year today) (dt_month today)
                  (dt_day today) m ltac:(lia) Hlt ltac:(lia) ltac:(lia)).
    lia.
  - pose proof (@day_of_year_monotone (dt_year today) m d (dt_month today)
                  ltac:(lia) Hgt ltac:(lia) ltac:(lia)).
    lia.
Qed.

Lemma year_length (y m d : Z) :
  1 <= m <= 12 -> 1 <= d <= days_in_month y m -> d <= days_in_month (y + 1) m ->
  365 <= toordinal (y + 1) m d - toordinal y m d <= 366.
Proof.
  intros Hm Hd Hd'. unfold toordinal. rewrite days_before_year_succ.
  apply month_cases in Hm. revert Hd Hd'.
  repeat (destruct Hm as [->|Hm]); try subst m; month_tables;
    destruct (is_leap y); destruct (is_leap (y + 1)); lia.
Qed.

(** X1.  Whenever [days_to_birthday] returns a count, the count lies
    between 0 and 365. *)
Theorem days_to_birthday_within_a_year (today : datetime) (self : Record) (n : Z) :
  datetime_valid today = true ->
  days_to_birthday today self = Ok (Some n) -> 0 <= n <= 365.
Proof.
  intros Hv Hrun. split; [eapply days_to_birthday_nonneg; eassumption|].
  pose proof Hv as Hv'. apply datetime_valid_bounds in Hv' as [Hc [Hh [Hmi [Hs Hus]]]].
  pose proof (time_of_day_bounds today Hh Hmi Hs Hus) as Htod.
  pose proof Hc as Hc'. apply check_date_fields_bounds in Hc' as [Hy [Hm Hd]].
  revert Hrun. unfold days_to_birthday.
  destruct (birthday self) as [[[by_ bm bd]]|]; [|discriminate].
  simpl. unfold datetime_new.
  destruct (check_date_fields (dt_year today) bm bd) eqn:C1; simpl; [|discriminate].
  apply check_date_fields_bounds in C1 as [_ [Hbm Hbd]].
  rewrite datetime_gt_midnight by assumption. cbv zeta.
  pose proof (day_of_year_bounds (dt_year today) Hm Hd) as Bt.
  pose proof (day_of_year_bounds (dt_year today) Hbm Hbd) as Bb.
  set (D := toordinal (dt_year today) bm bd
            - toordinal (dt_year today) (dt_month today) (dt_day today)) in *.
  set (tod := seconds_of_day today * 1000000 + dt_microsecond today) in *.
  assert (HD : -365 <= D <= 365).
  { unfold D, toordinal. destruct (is_leap (dt_year today)); lia. }
  destruct ((D <? 0) || ((D =? 0) && negb (tod =? 0))) eqn:G.
  - destruct (check_date_fields (dt_year today + 1) bm bd) eqn:C2; simpl;
      [|discriminate].
    apply check_date_fields_bounds in C2 as [_ [_ Hbd2]].
    intros [= <-]. rewrite timedelta_days_to_midnight by exact Htod. fold tod.
    pose proof (@year_length (dt_year today) bm bd Hbm Hbd ltac:(lia)) as Hyl.
    fold D in Hyl.
    assert (toordinal (dt_year today + 1) bm bd
            - toordinal (dt_year today) (dt_month today) (dt_day today)
            = (toordinal (dt_year today + 1) bm bd
               - toordinal (dt_year today) bm bd) + D) as -> by (unfold D; lia).
    destruct (tod =? 0) eqn:E; lia.
  - intros [= <-]. rewrite timedelta_days_to_midnight by exact Htod. fold D tod.
    destruct (tod =? 0); lia.
Qed.

(** X2.  For a birthday that falls later in the current year, the count is
    the number of days from today's date to the birthday when the clock
    reads midnight sharp, and one less at any other time of day. *)
Theorem days_to_birthday_ahead_this_year (today : datetime) (self : Record)
        (b : Birthday) :
  datetime_valid today = true ->
  birthday self = Some b ->
  check_date_fields (dt_year today) (month (Birthday_value b))
                    (day (Birthday_value b)) = true ->
  let D := toordinal (dt_year today) (month (Birthday_value b))
                     (day (Birthday_value b))
           - toordinal (dt_year today) (dt_month today) (dt_day today) in
  0 < D ->
  days_to_birthday today self
  = Ok (Some (D - (if seconds_of_day today * 1000000 + dt_microsecond today =? 0
                   then 0 else 1))).
Proof.
  intros Hv Hb Hc D HD.
  pose proof Hv as Hv'. apply datetime_valid_bounds in Hv' as [_ [Hh [Hmi [Hs Hus]]]].
  pose proof (time_of_day_bounds today Hh Hmi Hs Hus) as Htod.
  pose proof Hc as Hc'. apply check_date_fields_bounds in Hc' as [_ [Hbm Hbd]].
  unfold days_to_birthday. rewrite Hb. unfold datetime_new. rewrite Hc. simpl.
  rewrite datetime_gt_midnight by assumption. cbv zeta. fold D.
  assert ((D <? 0) = false) as -> by lia.
  assert ((D =? 0) = false) as -> by lia. simpl.
  rewrite timedelta_days_to_midnight by exact Htod. reflexivity.
Qed.

(** X3.  On the day of the birthday itself the count is 0 only when the
    clock reads midnight sharp; at any other time of day it is the count
    to next year's occurrence less one, 364 or 365. *)
Theorem days_to_birthday_on_the_birthday (today : datetime) (self : Record)
        (b : Birthday) :
  datetime_valid today = true -> dt_year today < 9999 ->
  birthday self = Some b ->
  month (Birthday_value b) = dt_month today ->
  day (Birthday_value b) = dt_day today ->
  (dt_month today, dt_day today) <> (2, 29) ->
  exists n,
    days_to_birthday today self = Ok (Some n)
    /\ (seconds_of_day today * 1000000 + dt_microsecond today = 0 -> n = 0)
    /\ (seconds_of_day today * 1000000 + dt_microsecond today <> 0 ->
        n = 364 \/ n = 365).
Proof.
  intros Hv Hy9 Hb Em Ed Hfeb.
  pose proof Hv as Hv'. apply datetime_valid_bounds in Hv' as [Hc [Hh [Hmi [Hs Hus]]]].
  pose proof (time_of_day_bounds today Hh Hmi Hs Hus) as Htod.
  destruct (Z.eq_dec (seconds_of_day today * 1000000 + dt_microsecond today) 0)
    as [E|E].
  - exists 0. split; [|split; [reflexivity | contradiction]].
    assert (today = mkdatetime (dt_year today) (dt_month today) (dt_day today)
                               0 0 0 0) as ->.
    { unfold seconds_of_day in E. destruct today; simpl in *. f_equal; lia. }
    simpl in *. eapply days_to_birthday_at_midnight; eassumption.
  - destruct (@days_to_birthday_on_the_day today self b Hv Hy9 Hb Em Ed Hfeb
                ltac:(lia)) as [n [Hn Hcases]].
    exists n. split; [exact Hn|]. split; [contradiction | auto].
Qed.

Lemma days_to_birthday_leap_day (today : datetime) (self : Record) (b : Birthday) :
  birthday self = Some b ->
  month (Birthday_value b) = 2 -> day (Birthday_value b) = 29 ->
  is_leap (dt_year today) = false ->
  days_to_birthday today self = Raise (ValueError "date value out of range").
Proof.
  intros Hb Hm Hd Hleap. unfold days_to_birthday. rewrite Hb, Hm, Hd.
  unfold datetime_new, check_date_fields, days_in_month. rewrite Hleap.
  simpl. rewrite !andb_false_r. reflexivity.
Qed.

(** X4.  A birthday on 29 February makes [days_to_birthday] raise
    ValueError whenever the current year is not a leap year. *)
Theorem leap_day_birthday_raises (today : datetime) (self : Record) (b : Birthday) :
  birthday self = Some b ->
  month (Birthday_value b) = 2 -> day (Birthday_value b) = 29 ->
  is_leap (dt_year today) = false ->
  days_to_birthday today self = Raise (ValueError "date value out of range").
Proof. apply days_to_birthday_leap_day. Qed.

(** *** Phones of a record *)

Lemma Phone_eta (p : Phone) : mkPhone (Phone_value p) = p.
Proof. destruct p. reflexivity. Qed.

Lemma Phone_value_inj (p q : Phone) : Phone_value p = Phone_value q -> p = q.
Proof. destruct p, q. simpl. intros ->. reflexivity. Qed.

Lemma set_phones_same (self : Record) : set_phones (phones self) self = self.
Proof. destruct self. reflexivity. Qed.

Lemma without_phone_absent_id (phone : str) (ps : list Phone) :
  ~ In phone (List.map Phone_value ps) -> without_phone phone ps = ps.
Proof.
  unfold without_phone. induction ps as [|p ps IH]; simpl; intros H; [reflexivity|].
  destruct (str_eqb (Phone_value p) phone) eqn:E; simpl.
  - apply str_eqb_eq in E. exfalso. apply H. left. exact E.
  - rewrite IH; [reflexivity|]. intros Hin. apply H. right. exact Hin.
Qed.

(** X5.  [remove_phone] never raises; it leaves exactly the phones that
    differ from the given one, in their order, and name and birthday as
    they were; when no phone equals the given one the record is unchanged. *)
Theorem remove_phone_removes_every_match (phone : str) (self : Record) :
  fst (remove_phone phone self) = Ok tt
  /\ (forall p, In p (phones (snd (remove_phone phone self)))
                <-> In p (phones self) /\ Phone_value p <> phone)
  /\ name (snd (remove_phone phone self)) = name self
  /\ birthday (snd (remove_phone phone self)) = birthday self
  /\ (~ has_phone phone self -> snd (remove_phone phone self) = self).
Proof.
  split; [reflexivity|]. split; [|split; [reflexivity|split; [reflexivity|]]].
  - intros p. simpl. rewrite filter_In, negb_true_iff, str_eqb_neq. reflexivity.
  - intros H. simpl. fold (without_phone phone (phones self)).
    rewrite without_phone_absent_id by exact H. apply set_phones_same.
Qed.

(** X6.  [find_phone] returns a phone of the record whose value is the one
    asked for, the first such in the list, and returns none exactly when the
    record has no such phone. *)
Theorem find_phone_first_match (phone : str) (self : Record) :
  (forall p, find_phone phone self = Some p ->
     Phone_value p = phone
     /\ exists before after,
          phones self = before ++ p :: after
          /\ ~ In phone (List.map Phone_value before))
  /\ (find_phone phone self = None <-> ~ has_phone phone self).
Proof.
  unfold find_phone, has_phone. split.
  - induction (phones self) as [|q ps IH]; simpl; [discriminate|]. intros p.
    destruct (str_eqb (Phone_value q) phone) eqn:E.
    + intros [= <-]. apply str_eqb_eq in E. split; [exact E|].
      exists [], ps. split; [reflexivity | intros []].
    + intros H. destruct (IH p H) as [Hv [before [after [-> Hno]]]].
      split; [exact Hv|]. exists (q :: before), after. split; [reflexivity|].
      simpl. apply str_eqb_neq in E. intros [H1|H1]; [congruence | auto].
  - induction (phones self) as [|q ps IH]; simpl.
    + split; [intros _ [] | reflexivity].
    + destruct (str_eqb (Phone_value q) phone) eqn:E.
      * apply str_eqb_eq in E. split; [discriminate|]. intros H. exfalso. auto.
      * apply str_eqb_neq in E. rewrite IH. split.
        -- intros H [H1|H1]; [congruence | auto].
        -- intros H H1. apply H. right. exact H1.
Qed.

Lemma add_phone_valid (phone : str) (self : Record) :
  all_digits phone -> List.length phone = 10%nat ->
  add_phone phone self = (Ok tt, set_phones (phones self ++ [mkPhone phone]) self).
Proof.
  intros Hd Hl. unfold add_phone, add_phone_of. simpl.
  assert (Phone_new phone = Ok (mkPhone phone)) as ->
    by (apply Phone_new_ok_iff; auto).
  reflexivity.
Qed.

Lemma find_app_last (phone : str) (ps : list Phone) :
  List.find (fun p => str_eqb (Phone_value p) phone) (ps ++ [mkPhone phone])
  = Some (mkPhone phone).
Proof.
  induction ps as [|q ps IH]; simpl.
  - rewrite str_eqb_refl. reflexivity.
  - destruct (str_eqb (Phone_value q) phone) eqn:E; [|exact IH].
    apply str_eqb_eq in E. f_equal. apply Phone_value_inj. exact E.
Qed.

(** X7.  A phone added with [add_phone] is found by [find_phone]; removing
    it again gives the record with every phone of that value removed, which
    is the record before the addition when it had no such phone.  An
    invalid phone is refused and the record stays as it was. *)
Theorem add_phone_then_find_and_remove (phone : str) (self : Record) :
  (all_digits phone /\ List.length phone = 10%nat ->
   fst (add_phone phone self) = Ok tt
   /\ find_phone phone (snd (add_phone phone self)) = Some (mkPhone phone)
   /\ snd (remove_phone phone (snd (add_phone phone self)))
      = snd (remove_phone phone self)
   /\ (~ has_phone phone self ->
       snd (remove_phone phone (snd (add_phone phone self))) = self))
  /\ (~ (all_digits phone /\ List.length phone = 10%nat) ->
      add_phone phone self
      = (Raise (ValueError "Invalid phone number format. Phone not added."), self)).
Proof.
  split.
  - intros [Hd Hl]. rewrite (add_phone_valid self Hd Hl). simpl.
    split; [reflexivity|]. split; [apply find_app_last|].
    assert (E : filter (fun p => negb (str_eqb (Phone_value p) phone))
                       (phones self ++ [mkPhone phone])
                = filter (fun p => negb (str_eqb (Phone_value p) phone))
                         (phones self)).
    { rewrite filter_app. simpl. rewrite str_eqb_refl. simpl.
      apply app_nil_r. }
    split.
    + unfold set_phones. simpl. rewrite E. reflexivity.
    + intros H. unfold set_phones. simpl. rewrite E.
      fold (without_phone phone (phones self)).
      rewrite without_phone_absent_id by exact H. destruct self; reflexivity.
  - intros H. unfold add_phone, add_phone_of. simpl.
    rewrite (Phone_new_rejects H). reflexivity.
Qed.

(** X8.  Every phone of a record made by [Record(...)] and changed by
    [add_phone], [remove_phone] and [edit_phone] is a string of ten digits,
    and its birthday, if any, is a date of the calendar: a value the
    checks refuse is never stored. *)
Theorem record_methods_keep_phones_valid :
  (forall n b r, Record_new n b = Ok r -> record_ok r)
  /\ (forall self, record_ok self ->
        (forall phone, record_ok (snd (add_phone phone self)))
        /\ (forall phone, record_ok (snd (remove_phone phone self)))
        /\ (forall old new, record_ok (snd (edit_phone old new self)))
        /\ (forall p, In p (phones self) ->
              all_digits (Phone_value p)
              /\ List.length (Phone_value p) = 10%nat)
        /\ (forall b, birthday self = Some b -> valid_date (Birthday_value b))).
Proof.
  split; [intros n b r; apply Record_new_ok|].
  intros self Hok. split; [|split; [|split; [|split]]].
  - intros phone. apply add_phone_ok. exact Hok.
  - intros phone. apply remove_phone_ok. exact Hok.
  - intros old new. apply edit_phone_ok. exact Hok.
  - intros p Hin. destruct Hok as [Hps _]. rewrite Forall_forall in Hps.
    apply Hps, Phone_new_ok_iff in Hin. destruct Hin as [_ H]. exact H.
  - intros b Hb. destruct Hok as [_ H]. rewrite Hb in H. exact H.
Qed.

Lemma without_phone_length (phone : str) (ps : list Phone) :
  (List.length (without_phone phone ps) <= List.length ps)%nat.
Proof. apply filter_length_le. Qed.

(** X9.  When [edit_phone] returns, the new phone is the last of the list,
    every other phone of the result was there before and differs from the
    old one, and the list has not grown: all duplicates of the old phone
    went for the one new phone. *)
Theorem edit_phone_result (old_phone new_phone : str) (self self' : Record) :
  edit_phone old_phone new_phone self = (Ok tt, self') ->
  has_phone old_phone self
  /\ phones self' = without_phone old_phone (phones self) ++ [mkPhone new_phone]
  /\ (List.length (phones self') <= List.length (phones self))%nat
  /\ name self' = name self /\ birthday self' = birthday self.
Proof.
  intros H. destruct (existsb (fun p => str_eqb (Phone_value p) old_phone)
                              (phones self)) eqn:E.
  - apply existsb_has_phone in E. split; [exact E|].
    rewrite edit_phone_found in H by exact E.
    unfold add_phone, add_phone_of in H. simpl in H.
    destruct (Phone_new new_phone) as [p|] eqn:Hp; [|discriminate].
    apply Phone_new_ok_iff in Hp as [-> _]. injection H as <-. simpl.
    split; [reflexivity|]. split; [|split; reflexivity].
    rewrite length_app. simpl.
    assert (List.length (without_phone old_phone (phones self))
            < List.length (phones self))%nat; [|lia].
    unfold has_phone in E. clear -E.
    induction (phones self) as [|q ps IH]; simpl in *; [destruct E|].
    destruct (str_eqb (Phone_value q) old_phone) eqn:Eq; simpl.
    + pose proof (without_phone_length old_phone ps). unfold without_phone in *. lia.
    + apply str_eqb_neq in Eq. destruct E as [E|E]; [congruence|].
      apply IH in E. unfold without_phone in *. lia.
  - unfold edit_phone in H. rewrite E in H. discriminate.
Qed.

(** *** The address book: deleting and overwriting *)

Section DictMore.
Variable V : Type.
Implicit Types (d : dict V) (k : str) (v : V).

Lemma dict_mem_in_keys k d : dict_mem k d = true <-> In k (keys d).
Proof.
  unfold dict_mem. induction d as [|[k0 v0] d IH]; simpl.
  - split; [discriminate | intros []].
  - destruct (str_eqb k k0) eqn:E.
    + apply str_eqb_eq in E. subst. split; auto.
    + apply str_eqb_neq in E. rewrite IH. split; [auto|].
      intros [H|H]; [congruence | exact H].
Qed.

Lemma dict_del_absent k d : ~ In k (keys d) -> dict_del k d = d.
Proof.
  induction d as [|[k0 v0] d IH]; simpl; intros H; [reflexivity|].
  destruct (str_eqb k k0) eqn:E.
  - apply str_eqb_eq in E. subst. exfalso. auto.
  - rewrite IH; [reflexivity | auto].
Qed.

Lemma dict_get_del_other k k' d :
  k' <> k -> dict_get k' (dict_del k d) = dict_get k' d.
Proof.
  intros Hne. induction d as [|[k0 v0] d IH]; simpl; [reflexivity|].
  destruct (str_eqb k k0) eqn:E; simpl.
  - apply str_eqb_eq in E. subst k0. apply str_eqb_neq in Hne. rewrite Hne.
    reflexivity.
  - destruct (str_eqb k' k0); [reflexivity | exact IH].
Qed.

Lemma keys_dict_del k d :
  NoDup (keys d) ->
  keys (dict_del k d) = filter (fun k' => negb (str_eqb k' k)) (keys d).
Proof.
  induction d as [|[k0 v0] d IH]; simpl; intros H; [reflexivity|].
  inversion H as [|? ? Hnin Hnd]; subst.
  destruct (str_eqb k k0) eqn:E.
  - apply str_eqb_eq in E. subst k0. rewrite str_eqb_refl. simpl.
    symmetry. apply forallb_filter_id. apply forallb_forall. intros k' Hin.
    apply negb_true_iff, str_eqb_neq. intros ->. contradiction.
  - assert (str_eqb k0 k = false) as ->
      by (apply str_eqb_neq; apply str_eqb_neq in E; congruence).
    simpl. rewrite IH by exact Hnd. reflexivity.
Qed.

Lemma keys_dict_set k v d :
  keys (dict_set k v d) = if dict_mem k d then keys d else keys d ++ [k].
Proof.
  unfold dict_mem. induction d as [|[k0 v0] d IH]; simpl; [reflexivity|].
  destruct (str_eqb k k0) eqn:E; simpl; [reflexivity|].
  rewrite IH. destruct (dict_get k d); reflexivity.
Qed.

Lemma dict_set_twice k v1 v2 d :
  dict_set k v2 (dict_set k v1 d) = dict_set k v2 d.
Proof.
  induction d as [|[k0 v0] d IH]; simpl.
  - rewrite str_eqb_refl. reflexivity.
  - destruct (str_eqb k k0) eqn:E; simpl; rewrite E; [reflexivity|].
    rewrite IH. reflexivity.
Qed.

Lemma dict_set_get_same k v d : dict_get k d = Some v -> dict_set k v d = d.
Proof.
  induction d as [|[k0 v0] d IH]; simpl; [discriminate|].
  destruct (str_eqb k k0) eqn:E.
  - intros [= ->]. reflexivity.
  - intros H. rewrite IH by exact H. reflexivity.
Qed.

Lemma dict_del_set_fresh k v d :
  ~ In k (keys d) -> dict_del k (dict_set k v d) = d.
Proof.
  induction d as [|[k0 v0] d IH]; simpl; intros H.
  - rewrite str_eqb_refl. reflexivity.
  - destruct (str_eqb k k0) eqn:E.
    + apply str_eqb_eq in E. subst. exfalso. auto.
    + simpl. rewrite E, IH; [reflexivity | auto].
Qed.

End DictMore.

(** X10.  [delete] never raises.  Afterwards nothing is stored under the
    name, every other name holds what it held, and the remaining names keep
    their order; for a name that was not in the book the book is
    unchanged. *)
Theorem delete_removes_only_that_name (n : str) (book : AddressBook) :
  NoDup (keys book) ->
  fst (delete n book) = Ok tt
  /\ dict_get n (snd (delete n book)) = None
  /\ (forall k, k <> n -> dict_get k (snd (delete n book)) = dict_get k book)
  /\ keys (snd (delete n book))
     = filter (fun k => negb (str_eqb k n)) (keys book)
  /\ (~ In n (keys book) -> snd (delete n book) = book).
Proof.
  intros Hnd. unfold delete, mmodify. simpl.
  split; [reflexivity|].
  destruct (dict_mem n book) eqn:E.
  - split; [|split; [|split]].
    + apply dict_get_not_in. rewrite keys_dict_del by exact Hnd.
      rewrite filter_In, str_eqb_refl. simpl. intros [_ H]. discriminate.
    + intros k Hk. apply dict_get_del_other. exact Hk.
    + apply keys_dict_del. exact Hnd.
    + intros H. apply dict_mem_in_keys in E. contradiction.
  - assert (Hnin : ~ In n (keys book)).
    { intros H. apply dict_mem_in_keys in H. congruence. }
    split; [|split; [|split]].
    + apply dict_get_not_in. exact Hnin.
    + reflexivity.
    + symmetry. apply forallb_filter_id. apply forallb_forall. intros k Hin.
      apply negb_true_iff, str_eqb_neq. intros ->. contradiction.
    + reflexivity.
Qed.

(** X11.  [add_record] under a name already in the book replaces the
    record where it stands, so the order and number of names stay; under a
    new name it appends.  A second [add_record] under the same name makes
    the first as if it had not happened. *)
Theorem add_record_keeps_the_place (record : Record) (book : AddressBook) :
  keys (snd (add_record record book))
  = (if dict_mem (Name_value (name record)) book
     then keys book
     else keys book ++ [Name_value (name record)])
  /\ (forall record', name record' = name record ->
        snd (add_record record' (snd (add_record record book)))
        = snd (add_record record' book)).
Proof.
  split.
  - apply keys_dict_set.
  - intros record' E. simpl. rewrite E. apply dict_set_twice.
Qed.

(** X12.  Adding a record under a name the book does not have and then
    deleting that name gives the book back. *)
Theorem add_record_then_delete (record : Record) (book : AddressBook) :
  ~ In (Name_value (name record)) (keys book) ->
  snd (delete (Name_value (name record)) (snd (add_record record book))) = book.
Proof.
  intros H. unfold delete, add_record, mmodify. simpl.
  assert (dict_mem (Name_value (name record))
                   (dict_set (Name_value (name record)) record book) = true) as ->.
  { apply dict_mem_in_keys, in_keys_dict_set. left. reflexivity. }
  apply dict_del_set_fresh. exact H.
Qed.

(** *** Loading: failure part way, loading twice, what stays *)

Lemma mfor_app (S A : Type) (l1 l2 : list A) (body : A -> method S unit) (s : S) :
  mfor (l1 ++ l2) body s
  = match mfor l1 body s with
    | (Ok _, s') => mfor l2 body s'
    | (Raise e, s') => (Raise e, s')
    end.
Proof.
  revert s. induction l1 as [|x l1 IH]; intros s; simpl; [reflexivity|].
  unfold mbind. destruct (body x s) as [[[]|e] s']; [apply IH | reflexivity].
Qed.

Lemma load_from_file_nonempty (f : file) (book : AddressBook) :
  file_records f <> [] ->
  load_from_file f book
  = mfor (file_records f) (fun '(n, rd) => load_record n rd) book.
Proof.
  intros H. destruct f as [| |data]; simpl in *; try congruence.
  unfold mbind, mlift.
  destruct data as [| | | | |l|d]; simpl in *; try congruence.
  destruct (dict_get (py "records") d) as [records|]; simpl; [|congruence].
  destruct records; simpl; congruence.
Qed.

Lemma load_records_file (items : list (str * json)) (book : AddressBook) :
  load_from_file (records_file items) book
  = mfor items (fun '(n, rd) => load_record n rd) book.
Proof. reflexivity. Qed.

Lemma load_loop_all_parse (items : list (str * json)) (book : AddressBook) :
  (forall k rd, In (k, rd) items -> exists r, parse_record k rd = Ok r) ->
  fst (mfor items (fun '(n, rd) => load_record n rd) book) = Ok tt.
Proof.
  revert book. induction items as [|[n rd] items IH]; intros book H; simpl.
  - reflexivity.
  - unfold mbind. rewrite load_record_parse.
    destruct (H n rd (or_introl eq_refl)) as [r ->].
    apply IH. intros k rd' Hin. apply (H k rd'). right. exact Hin.
Qed.

(** X13.  [load_from_file] is not all-or-nothing: when the entries of the
    file before some entry all build a record and that entry does not, the
    load raises that entry's exception with the earlier entries loaded and
    none of the later ones. *)
Theorem load_stops_at_the_bad_entry (f : file) (book : AddressBook)
        (before after : list (str * json)) (k : str) (rd : json) (e : exn) :
  file_records f = before ++ (k, rd) :: after ->
  (forall k' rd', In (k', rd') before -> exists r, parse_record k' rd' = Ok r) ->
  parse_record k rd = Raise e ->
  fst (load_from_file (records_file before) book) = Ok tt
  /\ load_from_file f book
     = (Raise e, snd (load_from_file (records_file before) book)).
Proof.
  intros Hf Hbefore Hbad. rewrite load_records_file.
  pose proof (load_loop_all_parse before book Hbefore) as Hok.
  split; [exact Hok|].
  rewrite load_from_file_nonempty by (rewrite Hf; destruct before; discriminate).
  rewrite Hf, mfor_app.
  destruct (mfor before _ book) as [[[]|e'] book1]; simpl in *; [|discriminate].
  unfold mbind. rewrite load_record_parse, Hbad. reflexivity.
Qed.

Lemma load_loop_again (items : list (str * json)) (book : AddressBook) :
  (forall k rd, In (k, rd) items ->
     exists r, parse_record k rd = Ok r /\ dict_get k book = Some r) ->
  mfor items (fun '(n, rd) => load_record n rd) book = (Ok tt, book).
Proof.
  induction items as [|[n rd] items IH]; intros H; simpl; [reflexivity|].
  unfold mbind. rewrite load_record_parse.
  destruct (H n rd (or_introl eq_refl)) as [r [-> Hget]].
  rewrite (dict_set_get_same _ _ Hget). apply IH.
  intros k rd' Hin. apply H. right. exact Hin.
Qed.

Lemma load_from_file_shape (f : file) :
  (exists e, forall book, load_from_file f book = (Raise e, book))
  \/ (forall book,
        load_from_file f book
        = mfor (file_records f) (fun '(n, rd) => load_record n rd) book).
Proof.
  destruct f as [| |data]; simpl; try (left; eexists; reflexivity).
  unfold mbind, mlift.
  destruct data as [| | | | |l|d]; simpl; try (left; eexists; reflexivity).
  destruct (dict_get (py "records") d) as [records|]; simpl;
    [|left; eexists; reflexivity].
  destruct records; simpl; try (left; eexists; reflexivity).
  right. reflexivity.
Qed.

(** X14.  Loading the same file a second time changes nothing: after a
    load that returned, loading the file again returns with the same
    book. *)
Theorem load_from_file_twice (f : file) (book : AddressBook) :
  NoDup (keys (file_records f)) ->
  fst (load_from_file f book) = Ok tt ->
  load_from_file f (snd (load_from_file f book))
  = (Ok tt, snd (load_from_file f book)).
Proof.
  intros Hnd Hok. destruct (load_from_file_shape f) as [[e He]|Hloop].
  - rewrite He in Hok. discriminate.
  - rewrite (Hloop (snd (load_from_file f book))).
    apply load_loop_again. intros k rd Hin.
    apply (@load_loop_stores (file_records f) book); [exact Hnd| |exact Hin].
    rewrite <- Hloop. destruct (load_from_file f book) as [res b'].
    simpl in *. subst res. reflexivity.
Qed.

Lemma load_loop_keeps_keys (items : list (str * json)) (book : AddressBook) :
  exists new,
    keys (snd (mfor items (fun '(n, rd) => load_record n rd) book))
    = keys book ++ new.
Proof.
  revert book. induction items as [|[n rd] items IH]; intros book; simpl.
  - exists []. rewrite app_nil_r. reflexivity.
  - unfold mbind. rewrite load_record_parse.
    destruct (parse_record n rd) as [r|e]; simpl.
    + destruct (IH (dict_set n r book)) as [new Hnew]. rewrite Hnew.
      rewrite keys_dict_set. destruct (dict_mem n book).
      * exists new. reflexivity.
      * exists (n :: new). rewrite <- app_assoc. reflexivity.
    + exists []. rewrite app_nil_r. reflexivity.
Qed.

(** X15.  Loading never drops or reorders what the book has: whether the
    load returns or raises, the names of the book before it are the first
    names of the book after it, in the same order. *)
Theorem load_from_file_keeps_names (f : file) (book : AddressBook) :
  exists new, keys (snd (load_from_file f book)) = keys book ++ new.
Proof.
  destruct (load_from_file_loop f book) as [-> _]. apply load_loop_keeps_keys.
Qed.

(** *** Saving *)



(** *** find and iterator *)

(** X17.  [find] returns the matching records in the order of the book,
    and the search of a book made of two parts is the search of the first
    followed by the search of the second. *)
Theorem find_in_book_order (query : str) (book1 book2 : AddressBook) :
  find query book1 = List.map snd (filter (matchesb query) book1)
  /\ find query (book1 ++ book2) = find query book1 ++ find query book2.
Proof.
  unfold find. rewrite !find_loop_filter. simpl. split; [reflexivity|].
  rewrite filter_app, map_app. reflexivity.
Qed.

Lemma startswith_nil (s : str) : startswith [] s = true.
Proof. destruct s; reflexivity. Qed.

Lemma str_in_nil (s : str) : str_in [] s = true.
Proof. destruct s; reflexivity. Qed.

(** X18.  The empty query matches every contact: [find("")] returns all
    records of the book, in order. *)
Theorem find_empty_query (book : AddressBook) :
  str_lower [] = [] -> find [] book = List.map snd book.
Proof.
  intros H. unfold find. rewrite find_loop_filter. simpl. f_equal.
  apply forallb_filter_id. apply forallb_forall. intros [n r] _.
  unfold matchesb. simpl. rewrite H, str_in_nil. reflexivity.
Qed.

(** X19.  With a page size of one or less, [iterator] yields every entry
    of the book as a page of its own. *)
Theorem iterator_page_size_at_most_one (item_number : Z) (book : AddressBook) :
  item_number <= 1 -> iterator item_number book = List.map entry book.
Proof.
  intros H. unfold iterator.
  induction book as [|[n r] book IH]; simpl; [reflexivity|].
  assert ((item_number <=? 1) = true) as -> by lia.
  rewrite IH. reflexivity.
Qed.

(** *** The console session *)

Lemma evolves_refl (w : world) : evolves w w.
Proof.
  unfold evolves. repeat split; auto.
  - exists []. reflexivity.
  - exists []. rewrite app_nil_r. reflexivity.
Qed.

Lemma evolves_trans (w1 w2 w3 : world) :
  evolves w1 w2 -> evolves w2 w3 -> evolves w1 w3.
Proof.
  intros [Hd1 [Hc1 [Ht1 [[r1 Hr1] [o1 Ho1]]]]] [Hd2 [Hc2 [Ht2 [[r2 Hr2] [o2 Ho2]]]]].
  unfold evolves. repeat split.
  - congruence.
  - congruence.
  - lia.
  - exists (r1 ++ r2). rewrite Hr1, Hr2, app_assoc. reflexivity.
  - exists (o1 ++ o2). rewrite Ho2, Ho1, app_assoc. reflexivity.
Qed.

Lemma steady_aret A (a : A) : steady (aret a).
Proof. intros s. apply evolves_refl. Qed.

Lemma steady_araise A (x : raised) : steady (@araise A x).
Proof. intros s. apply evolves_refl. Qed.

Lemma steady_abind A B (m : action A) (k : A -> action B) :
  steady m -> (forall a, steady (k a)) -> steady (abind m k).
Proof.
  intros Hm Hk s. unfold abind. specialize (Hm s).
  destruct (m s) as [[a|x] s']; simpl in *; [|exact Hm].
  eapply evolves_trans; [exact Hm | apply Hk].
Qed.

Lemma steady_of_result A (r : result A) : steady (of_result r).
Proof. destruct r; [apply steady_aret | apply steady_araise]. Qed.

Lemma steady_on_book A (m : method AddressBook A) : steady (on_book m).
Proof.
  intros s. unfold on_book. destruct (m (fst s)) as [[a|e] b]; apply evolves_refl.
Qed.

Lemma steady_the_book : steady the_book.
Proof. intros s. apply evolves_refl. Qed.

Lemma steady_write (text : str) : steady (write text).
Proof.
  intros s. unfold write, evolves. simpl. repeat split; auto.
  - exists []. reflexivity.
  - exists text. reflexivity.
Qed.

Lemma steady_print (text : str) : steady (print text).
Proof. apply steady_write. Qed.

Lemma steady_input (prompt : str) : steady (input prompt).
Proof.
  unfold input. apply steady_abind; [apply steady_write|]. intros _ s.
  destruct (stdin (snd s)) as [|line rest] eqn:E; simpl.
  - apply evolves_refl.
  - unfold evolves. simpl. repeat split; auto.
    + exists [line]. exact E.
    + exists []. rewrite app_nil_r. reflexivity.
Qed.

Lemma steady_today : steady today.
Proof.
  intros s. unfold today, evolves. simpl. repeat split; auto.
  - exists []. reflexivity.
  - exists []. rewrite app_nil_r. reflexivity.
Qed.

Lemma steady_afor A (xs : list A) (body : A -> action unit) :
  (forall x, steady (body x)) -> steady (afor xs body).
Proof.
  intros H. induction xs as [|x xs IH]; simpl.
  - apply steady_aret.
  - apply steady_abind; [apply H | intros _; exact IH].
Qed.

Create HintDb steady.
#[local] Hint Resolve steady_aret steady_araise steady_of_result steady_on_book
  steady_the_book steady_write steady_print steady_input steady_today : steady.

Ltac steady_step :=
  first [ solve [auto with steady]
        | apply steady_afor; intro
        | apply steady_abind; [|intro] ].

Lemma steady_display_options : steady display_options.
Proof. unfold display_options. repeat steady_step. Qed.

Lemma steady_add_contact : steady add_contact.
Proof.
  unfold add_contact, get_user_input, display_message. repeat steady_step.
  destruct (add_phone _ _) as [[[]|e] r]; auto with steady.
Qed.

Lemma steady_delete_contact : steady delete_contact.
Proof. unfold delete_contact, get_user_input, display_message. repeat steady_step. Qed.

Lemma steady_search_contacts : steady search_contacts.
Proof.
  unfold search_contacts, get_user_input, display_message. repeat steady_step.
  destruct (find _ _); repeat steady_step.
Qed.

Lemma steady_show_all_contacts : steady show_all_contacts.
Proof.
  unfold show_all_contacts, display_message. repeat steady_step.
  destruct a; repeat steady_step.
Qed.

Lemma steady_days_to_birthday_now (record : Record) :
  steady (days_to_birthday_now record).
Proof.
  unfold days_to_birthday_now. destruct (birthday record); repeat steady_step.
Qed.

Lemma steady_upcoming_loop (records : list Record) (acc : list (Record * Z)) :
  steady (upcoming_loop records acc).
Proof.
  revert acc. induction records as [|r records IH]; intros acc; simpl.
  - apply steady_aret.
  - apply steady_abind; [apply steady_days_to_birthday_now|].
    intros [d|]; apply IH.
Qed.

Lemma steady_show_all_contacts_with_birthdays :
  steady show_all_contacts_with_birthdays.
Proof.
  unfold show_all_contacts_with_birthdays, display_message.
  apply steady_abind; [apply steady_today | intros _].
  apply steady_abind; [apply steady_the_book | intros book].
  apply steady_abind; [apply steady_upcoming_loop | intros up].
  destruct up; [apply steady_aret|].
  apply steady_abind; [apply steady_print | intros _].
  apply steady_afor. intros [record d]. unfold birthday_line.
  destruct (birthday record); auto with steady.
Qed.

Lemma steady_dispatch (choice : str) : steady (dispatch choice).
Proof.
  unfold dispatch.
  repeat match goal with |- context [if ?b then _ else _] => destruct b end;
    auto using steady_add_contact, steady_delete_contact, steady_search_contacts,
      steady_show_all_contacts, steady_show_all_contacts_with_birthdays,
      steady_print.
Qed.

(** The primitives as equations. *)

Lemma after_after (w : world) (r1 r2 : list str) (o1 o2 : str) :
  after (after w r1 o1) r2 o2 = after w r2 (o1 ++ o2).
Proof. unfold after. simpl. rewrite app_assoc. reflexivity. Qed.

Lemma write_eq (text : str) (book : AddressBook) (w : world) :
  write text (book, w) = (Returned tt, (book, after w (stdin w) text)).
Proof. reflexivity. Qed.

Lemma print_eq (text : str) (book : AddressBook) (w : world) :
  print text (book, w) = (Returned tt, (book, after w (stdin w) (text ++ nl))).
Proof. reflexivity. Qed.

Lemma input_eq (prompt line : str) (rest : list str) (book : AddressBook)
      (w : world) :
  stdin w = line :: rest ->
  input prompt (book, w) = (Returned line, (book, after w rest prompt)).
Proof.
  intros H. unfold input, abind, write, after. simpl. rewrite H.
  reflexivity.
Qed.

Lemma input_eof (prompt : str) (book : AddressBook) (w : world) :
  stdin w = [] ->
  input prompt (book, w) = (Raised EOFError, (book, after w [] prompt)).
Proof.
  intros H. unfold input, abind, write, after. simpl. rewrite H.
  reflexivity.
Qed.


Lemma Record_new_shape (n : str) (b : json) (r : Record) :
  Record_new n b = Ok r -> name r = mkName n /\ phones r = [].
Proof.
  unfold Record_new. destruct (truthy b).
  - destruct (Birthday_of b); simpl; [|discriminate]. intros [= <-]. auto.
  - intros [= <-]. auto.
Qed.

(** X20.  [add_contact] takes the reply to "Enter the number of phone
    numbers to add" as the phone itself: when that reply is a string of ten
    digits the contact is stored under its name with that one phone,
    replacing any contact of the same name, and success is reported; on any
    other reply, a count such as 2 included, ValueError is raised after the
    three prompts and the book is as before. *)
Theorem add_contact_takes_the_count_for_the_phone
        (n bday phone : str) (rest : list str) (r0 : Record)
        (book : AddressBook) (w : world) :
  stdin w = n :: bday :: phone :: rest ->
  Record_new n (JStr bday) = Ok r0 ->
  let prompts := py "Enter contact name: " ++ py "Enter birthday (YYYY-MM-DD): "
                 ++ py "Enter the number of phone numbers to add: " in
  (all_digits phone /\ List.length phone = 10%nat ->
   add_contact (book, w)
   = (Returned tt,
      (dict_set n (mkRecord (mkName n) [mkPhone phone] (birthday r0)) book,
       after w rest (prompts ++ py "Contact added successfully." ++ nl))))
  /\ (~ (all_digits phone /\ List.length phone = 10%nat) ->
      add_contact (book, w)
      = (Raised (Exc (ValueError "Invalid phone number format. Phone not added.")),
         (book, after w rest prompts))).
Proof.
  intros Hin Hrec prompts.
  destruct (Record_new_shape _ _ Hrec) as [Hname Hphones].
  assert (Hstart :
    forall k : Record -> action unit,
      (name <- get_user_input (py "Enter contact name: ") ;;
       birthday <- get_user_input (py "Enter birthday (YYYY-MM-DD): ") ;;
       record <- of_result (Record_new name (JStr birthday)) ;;
       phone_count <-
         get_user_input (py "Enter the number of phone numbers to add: ") ;;
       record <- (match add_phone phone_count record with
                  | (Ok _, record) => aret record
                  | (Raise e, _) => araise (Exc e)
                  end) ;;
       k record)%action (book, w)
      = (record <- (match add_phone phone r0 with
                    | (Ok _, record) => aret record
                    | (Raise e, _) => araise (Exc e)
                    end) ;;
         k record)%action (book, after w rest prompts)).
  { intros k. unfold get_user_input, abind at 1.
    erewrite input_eq by exact Hin. unfold abind at 1.
    erewrite input_eq by reflexivity.
    unfold abind at 1. rewrite Hrec. simpl of_result. unfold aret at 1.
    unfold abind at 1.
    erewrite input_eq by reflexivity.
    rewrite ?after_after. unfold prompts. reflexivity. }
  split.
  - intros [Hd Hl]. unfold add_contact. rewrite Hstart.
    rewrite (add_phone_valid r0 Hd Hl). unfold abind, aret, on_book.
    cbn [fst snd add_record mmodify]. unfold display_message.
    rewrite print_eq, after_after. unfold set_phones.
    rewrite Hname, Hphones. reflexivity.
  - intros Hbad. unfold add_contact. rewrite Hstart.
    unfold add_phone, add_phone_of. simpl.
    rewrite (Phone_new_rejects Hbad). reflexivity.
Qed.

(** X21.  When the reply for the birthday is neither empty nor a date
    [strptime] reads, [add_contact] raises the birthday ValueError after
    two prompts, without asking for a phone, and the book is as before. *)
Theorem add_contact_refuses_a_bad_birthday
        (n bday : str) (rest : list str) (book : AddressBook) (w : world) :
  stdin w = n :: bday :: rest ->
  bday <> [] -> (forall d, ~ reads_as bday d) ->
  add_contact (book, w)
  = (Raised (Exc (ValueError "Invalid birthday format. Use YYYY-MM-DD")),
     (book, after w rest (py "Enter contact name: "
                          ++ py "Enter birthday (YYYY-MM-DD): "))).
Proof.
  intros Hin Hne Hno.
  assert (Hrec : Record_new n (JStr bday)
                 = Raise (ValueError "Invalid birthday format. Use YYYY-MM-DD")).
  { unfold Record_new. simpl truthy.
    assert (str_eqb bday [] = false) as -> by (apply str_eqb_neq; exact Hne).
    simpl. destruct (Birthday_new_raises bday) as [[b Hb]|E];
      [|rewrite E; reflexivity].
    apply Birthday_new_spec in Hb. exfalso. exact (Hno _ Hb). }
  unfold add_contact, get_user_input, abind at 1.
  erewrite input_eq by exact Hin. unfold abind at 1.
  erewrite input_eq by reflexivity.
  unfold abind at 1. rewrite Hrec. simpl. rewrite after_after. reflexivity.
Qed.

(** X22.  [delete_contact] reports success whatever the name: it returns
    with the book [delete] leaves and "Contact deleted successfully."
    written, and for a name that is not in the book that book is the book
    as it was. *)
Theorem delete_contact_always_reports_success
        (n : str) (rest : list str) (book : AddressBook) (w : world) :
  stdin w = n :: rest ->
  delete_contact (book, w)
  = (Returned tt,
     (snd (delete n book),
      after w rest (py "Enter contact name to delete: "
                    ++ py "Contact deleted successfully." ++ nl)))
  /\ (~ In n (keys book) -> snd (delete n book) = book).
Proof.
  intros Hin. split.
  - unfold delete_contact, get_user_input, abind at 1.
    erewrite input_eq by exact Hin. unfold abind, on_book. simpl.
    unfold display_message. rewrite print_eq, after_after. reflexivity.
  - intros H. unfold delete, mmodify. simpl.
    destruct (dict_mem n book) eqn:E; [|reflexivity].
    apply dict_mem_in_keys in E. contradiction.
Qed.



(** *** main *)

Lemma steady_main_load : steady main_load.
Proof.
  intros s. unfold main_load, load_address_book.
  pose proof (steady_on_book (load_from_file (disk (snd s))) s) as H.
  destruct (on_book (load_from_file (disk (snd s))) s) as [[[]|x] s'].
  - eapply evolves_trans; [exact H | apply steady_print].
  - destruct x as [e|]; [|exact H].
    destruct e; try exact H.
    eapply evolves_trans; [exact H | apply steady_print].
Qed.

Lemma evolves_stdin_length (w w' : world) :
  evolves w w' -> (List.length (stdin w') <= List.length (stdin w))%nat.
Proof.
  intros [_ [_ [_ [[read H] _]]]]. rewrite H, length_app. lia.
Qed.

Lemma evolves_disk (w w' : world) : evolves w w' -> disk w' = disk w.
Proof. intros [H _]. exact H. Qed.

Lemma input_returned (prompt line : str) (s s' : session) :
  input prompt s = (Returned line, s') ->
  (List.length (stdin (snd s')) < List.length (stdin (snd s)))%nat.
Proof.
  unfold input, abind, write. simpl.
  destruct (stdin (snd s)) as [|l rest]; [discriminate|].
  intros [= _ <-]. simpl. lia.
Qed.

Lemma menu_turn (choice : str) (s s' : session) :
  (_ <- display_options ;; get_user_choice)%action s = (Returned choice, s') ->
  evolves (snd s) (snd s')
  /\ (List.length (stdin (snd s')) < List.length (stdin (snd s)))%nat.
Proof.
  intros H. split.
  - assert (Hst : steady (_ <- display_options ;; get_user_choice)%action).
    { apply steady_abind; [apply steady_display_options|].
      intros _. apply steady_input. }
    specialize (Hst s). rewrite H in Hst. exact Hst.
  - revert H. unfold abind at 1.
    pose proof (steady_display_options s) as Hd.
    destruct (display_options s) as [[[]|x] s1]; [|discriminate].
    intros H. apply input_returned in H.
    apply evolves_stdin_length in Hd. simpl in Hd. lia.
Qed.

Lemma save_and_leave (s : session) :
  exists w',
    (_ <- save_address_book ;;
     display_message (py "Address book saved. Exiting..."))%action s
    = (Returned tt, (fst s, w'))
    /\ disk w' = save_to_file (fst s).
Proof.
  destruct s as [book w]. eexists. split; reflexivity.
Qed.

Lemma main_loop_runs (fuel : nat) (s : session) :
  (List.length (stdin (snd s)) < fuel)%nat ->
  exists r s',
    main_loop fuel s = Some (r, s')
    /\ match r with
       | Returned _ => disk (snd s') = save_to_file (fst s')
       | Raised _ => disk (snd s') = disk (snd s)
       end.
Proof.
  revert s. induction fuel as [|fuel IH]; intros s Hfuel; [lia|].
  simpl main_loop.
  destruct ((_ <- display_options ;; get_user_choice)%action s)
    as [[choice|x] s1] eqn:Eturn.
  - apply menu_turn in Eturn as [Hev Hlt].
    destruct (str_eqb choice (py "6")).
    + destruct (save_and_leave s1) as [w' [-> Hdisk]].
      exists (Returned tt), (fst s1, w'). split; [reflexivity | exact Hdisk].
    + pose proof (steady_dispatch choice s1) as Hd.
      destruct (dispatch choice s1) as [[[]|x] s2] eqn:Ed.
      * simpl in Hd. pose proof (evolves_stdin_length Hd) as Hlen.
        destruct (IH s2 ltac:(lia)) as [r [s' [Hrun Hres]]].
        exists r, s'. split; [exact Hrun|].
        destruct r; [exact Hres|].
        rewrite Hres, (evolves_disk Hd). apply evolves_disk. exact Hev.
      * exists (Raised x), s2. split; [reflexivity|]. simpl in Hd.
        rewrite (evolves_disk Hd). apply evolves_disk. exact Hev.
  - exists (Raised x), s1. split; [reflexivity|].
    assert (Hst : steady (_ <- display_options ;; get_user_choice)%action).
    { apply steady_abind; [apply steady_display_options|].
      intros _. apply steady_input. }
    specialize (Hst s). rewrite Eturn in Hst. apply evolves_disk. exact Hst.
Qed.

(** X25.  Every run of [main] on a finite input ends.  When it returns,
    the file holds what [save_to_file] writes for the book at that moment;
    when it ends with an exception, the end of input included, the file is
    what it was at the start: nothing entered in that session is kept. *)
Theorem main_saves_on_exit_only (w : world) :
  exists r book w',
    main w = Some (r, (book, w'))
    /\ match r with
       | Returned _ => disk w' = save_to_file book
       | Raised _ => disk w' = disk w
       end.
Proof.
  unfold main. pose proof (steady_main_load ([], w)) as Hload.
  destruct (main_load ([], w)) as [[[]|x] [book1 w1]] eqn:E; simpl in Hload.
  - pose proof (evolves_stdin_length Hload) as Hlen.
    destruct (@main_loop_runs (S (List.length (stdin w))) (book1, w1))
      as [r [[book w'] [Hrun Hres]]]; [simpl; lia|].
    exists r, book, w'. split; [exact Hrun|]. simpl in Hres.
    destruct r; [exact Hres|]. rewrite Hres. apply evolves_disk. exact Hload.
  - exists (Raised x), book1, w1. split; [reflexivity|].
    apply evolves_disk. exact Hload.
Qed.

(** X26.  [main] goes on only from a file that is missing or loads in
    full: when loading raises anything but FileNotFoundError, [main] ends
    with that exception at once, with nothing written and nothing read. *)
Theorem main_needs_a_loadable_file (w : world) (e : exn) :
  fst (load_from_file (disk w) []) = Raise e ->
  e <> FileNotFoundError ->
  main w = Some (Raised (Exc e), (snd (load_from_file (disk w) []), w)).
Proof.
  intros Hload Hne. unfold main, main_load, load_address_book, on_book.
  simpl fst. simpl snd.
  destruct (load_from_file (disk w) []) as [res book1]. simpl in Hload.
  subst res. destruct e; try reflexivity. congruence.
Qed.




(** *** The birthdays listing *)

Lemma days_to_birthday_raises_only (t : datetime) (r : Record) (e : exn) :
  days_to_birthday t r = Raise e -> e = ValueError "date value out of range".
Proof.
  unfold days_to_birthday. destruct (birthday r) as [b|]; [|discriminate].
  unfold datetime_new.
  destruct (check_date_fields (dt_year t) _ _); simpl; [|intros [= <-]; reflexivity].
  destruct (datetime_gt t _); simpl; [|discriminate].
  destruct (check_date_fields (dt_year t + 1) _ _); simpl;
    [discriminate | intros [= <-]; reflexivity].
Qed.

Lemma days_to_birthday_now_cases (r : Record) (book : AddressBook) (w : world)
      (t : nat) :
  exists t',
    (exists d, days_to_birthday_now r (book, ticked w t)
               = (Returned d, (book, ticked w t')))
    \/ days_to_birthday_now r (book, ticked w t)
       = (Raised (Exc (ValueError "date value out of range")),
          (book, ticked w t')).
Proof.
  unfold days_to_birthday_now. destruct (birthday r) as [b|] eqn:Eb.
  - exists (S t). unfold abind, today. cbn [fst snd ticked clock ticks stdin stdout disk].
    destruct (days_to_birthday (clock w t) r) as [d|e] eqn:E; simpl.
    + left. exists d. reflexivity.
    + right. apply days_to_birthday_raises_only in E. subst e. reflexivity.
  - exists t. left. exists None. reflexivity.
Qed.

Lemma upcoming_loop_meets_leap_day (records : list Record) (book : AddressBook)
      (w : world) :
  (forall i, is_leap (dt_year (clock w i)) = false) ->
  (exists r b, In r records /\ birthday r = Some b
               /\ month (Birthday_value b) = 2 /\ day (Birthday_value b) = 29) ->
  forall acc t,
  exists t',
    upcoming_loop records acc (book, ticked w t)
    = (Raised (Exc (ValueError "date value out of range")), (book, ticked w t')).
Proof.
  intros Hclock. induction records as [|r records IH]; intros [r0 [b [Hin Hb]]] acc t.
  - destruct Hin.
  - simpl upcoming_loop. unfold abind at 1.
    destruct Hin as [->|Hin].
    + destruct Hb as [Hb [Hm Hd]]. unfold days_to_birthday_now. rewrite Hb.
      unfold abind, today. cbn [fst snd ticked clock ticks stdin stdout disk].
      rewrite (@days_to_birthday_leap_day (clock w t) r0 b Hb Hm Hd (Hclock t)).
      exists (S t). reflexivity.
    + destruct (days_to_birthday_now_cases r book w t) as [t1 [[d ->]| ->]].
      * destruct d; apply IH; eauto.
      * exists t1. reflexivity.
Qed.

(** X28.  One contact born on 29 February is enough for the birthdays
    listing to fail in a year that is not a leap year: it raises ValueError
    without having written a line, whatever the other contacts, and leaves
    the book alone. *)
Theorem birthdays_listing_fails_on_a_leap_day_birthday
        (book : AddressBook) (w : world) :
  (forall i, is_leap (dt_year (clock w i)) = false) ->
  (exists r b, In r (List.map snd book) /\ birthday r = Some b
               /\ month (Birthday_value b) = 2 /\ day (Birthday_value b) = 29) ->
  exists t',
    show_all_contacts_with_birthdays (book, w)
    = (Raised (Exc (ValueError "date value out of range")), (book, ticked w t')).
Proof.
  intros Hclock Hleap. unfold show_all_contacts_with_birthdays.
  unfold abind at 1, today. cbn [fst snd]. unfold abind at 1, the_book.
  cbn [fst]. unfold abind at 1.
  change (mkworld (stdin w) (stdout w) (disk w) (clock w) (S (ticks w)))
    with (ticked w (S (ticks w))).
  destruct (@upcoming_loop_meets_leap_day (List.map snd book) book w Hclock Hleap
              [] (S (ticks w))) as [t' ->].
  exists t'. reflexivity.
Qed.
End Program.

Arguments Returned {A} a.
Arguments Raised {A} x.

(** ** The properties at work on the sample data

    The tables are those of the ASCII block, which is all the sample data
    uses. *)

Lemma ascii_decimal_law (c : char) :
  (48 <= c <= 57)%N -> ascii_decimal c = Some (Z.of_N c - 48).
Proof.
  intros H. unfold ascii_decimal.
  destruct (N.leb_spec 48 c); [|lia]. destruct (N.leb_spec c 57); [|lia].
  reflexivity.
Defined.

Ltac distinct_keys :=
  repeat constructor; simpl; intuition discriminate.

Ltac each_item :=
  simpl; intros ? ? H;
  repeat (destruct H as [H|H]; [injection H as <- <-; reflexivity|]);
  destruct H.

Lemma Phone_accepts_exactly_ten_digits_witness :
  (exists ph, Phone_new ascii_isdigit (py "1234567890") = Ok ph
              /\ Phone_value ph = py "1234567890")
  /\ Phone_new ascii_isdigit (py "12345")
     = Raise (ValueError "Invalid phone number format. Phone not added.").
Proof.
  split.
  - apply (@Phone_accepts_exactly_ten_digits ascii_isdigit (py "1234567890")).
    split; [repeat constructor | reflexivity].
  - apply (@Phone_accepts_exactly_ten_digits ascii_isdigit (py "12345")).
    intros [_ H]. vm_compute in H. discriminate.
Defined.

Lemma edit_phone_spec_witness :
  edit_phone ascii_isdigit (py "1234567890") (py "0987654321") bob
  = (Raise (ValueError "Phone number not found."), bob)
  /\ edit_phone ascii_isdigit (py "5551234567") (py "1112223334") bob
     = (Ok tt, mkRecord (mkName (py "Bob"))
                        [mkPhone (py "0987654321"); mkPhone (py "1112223334")]
                        None).
Proof.
  split.
  - apply (@edit_phone_spec ascii_isdigit (py "1234567890") (py "0987654321") bob).
    unfold has_phone. simpl. intuition discriminate.
  - apply (@edit_phone_spec ascii_isdigit (py "5551234567") (py "1112223334") bob).
    + unfold has_phone. simpl. left. reflexivity.
    + reflexivity.
Defined.

Lemma edit_phone_not_atomic_witness :
  exists self',
    edit_phone ascii_isdigit (py "5551234567") (py "12") bob
    = (Raise (ValueError "Invalid phone number format. Phone not added."), self')
    /\ phones self' = without_phone (py "5551234567") (phones bob)
    /\ ~ has_phone (py "5551234567") self'
    /\ self' <> bob.
Proof.
  apply (@edit_phone_not_atomic ascii_isdigit (py "5551234567") (py "12") bob).
  - unfold has_phone. simpl. left. reflexivity.
  - intros [_ H]. vm_compute in H. discriminate.
Defined.

Lemma find_returns_matches_once_witness :
  (forall r, In r (find ascii_lower (py "555") sample_book)
             <-> In (Name_value (name r), r) sample_book
                 /\ (name_matches ascii_lower (py "555") (Name_value (name r))
                     \/ phone_matches (py "555") r))
  /\ NoDup (find ascii_lower (py "555") sample_book).
Proof.
  apply (@find_returns_matches_once ascii_lower (py "555") sample_book).
  - distinct_keys.
  - unfold keyed_by_name. each_item.
Defined.

Lemma iterator_yields_full_pages_witness :
  Z.of_nat (List.length (iterator 2 sample_book)) = 3 / 2
  /\ (forall i, (i < List.length (iterator 2 sample_book))%nat ->
        nth i (iterator 2 sample_book) []
        = page_of (firstn 2 (skipn (i * 2) sample_book))
        /\ List.length (firstn 2 (skipn (i * 2) sample_book)) = 2%nat)
  /\ List.concat (iterator 2 sample_book)
     = page_of (firstn (3 - 3 mod 2) sample_book).
Proof.
  apply (@iterator_yields_full_pages 2 sample_book). lia.
Defined.

Lemma one_record_per_name_witness :
  NoDup (keys (snd (add_record alice (snd (add_record bob []))))).
Proof.
  apply (@one_record_per_name ascii_decimal ascii_isdigit).
  apply reach_add_record, reach_add_record, reach_empty.
Defined.



Lemma Birthday_accepts_what_strptime_reads_witness :
  Birthday_new ascii_decimal (py "2000-05-20") = Ok (mkBirthday (mkdate 2000 5 20)).
Proof.
  apply (@Birthday_accepts_what_strptime_reads ascii_decimal ascii_decimal_law
           (py "2000-05-20")).
  split; reflexivity.
Defined.

(** Against C7 as stated: "2000-5-3" is not a date written strictly as
    YYYY-MM-DD, yet [Birthday] accepts it and holds 3 May 2000. *)
Lemma Birthday_accepts_unpadded :
  Birthday_new ascii_decimal (py "2000-5-3") = Ok (mkBirthday (mkdate 2000 5 3))
  /\ ~ (exists d, strict_Ymd (py "2000-5-3") d).
Proof.
  split; [reflexivity|]. intros [d [_ H]].
  apply (f_equal (@List.length char)) in H. discriminate.
Qed.

(** ** Further properties at work on the sample data *)

Lemma days_to_birthday_within_a_year_witness : 0 <= 0 <= 365.
Proof.
  apply (@days_to_birthday_within_a_year (morning 19) alice 0); reflexivity.
Defined.

Lemma days_to_birthday_ahead_this_year_witness :
  days_to_birthday (morning 19) alice = Ok (Some 0).
Proof.
  apply (@days_to_birthday_ahead_this_year (morning 19) alice
           (mkBirthday (mkdate 2000 5 20))); reflexivity.
Defined.

Lemma days_to_birthday_on_the_birthday_witness :
  exists n,
    days_to_birthday (morning 20) alice = Ok (Some n)
    /\ (seconds_of_day (morning 20) * 1000000 + dt_microsecond (morning 20) = 0
        -> n = 0)
    /\ (seconds_of_day (morning 20) * 1000000 + dt_microsecond (morning 20) <> 0
        -> n = 364 \/ n = 365).
Proof.
  apply (@days_to_birthday_on_the_birthday (morning 20) alice
           (mkBirthday (mkdate 2000 5 20))); try reflexivity.
  discriminate.
Defined.

Lemma leap_day_birthday_raises_witness :
  days_to_birthday first_of_march_2023 leapling
  = Raise (ValueError "date value out of range").
Proof.
  apply (@leap_day_birthday_raises first_of_march_2023 leapling
           (mkBirthday (mkdate 2000 2 29))); reflexivity.
Defined.

Lemma remove_phone_removes_every_match_witness :
  snd (remove_phone (py "0000000000") bob) = bob.
Proof.
  apply (@remove_phone_removes_every_match (py "0000000000") bob).
  unfold has_phone. simpl. intuition discriminate.
Defined.

Lemma find_phone_first_match_witness :
  Phone_value (mkPhone (py "0987654321")) = py "0987654321"
  /\ exists before after,
       phones bob = before ++ mkPhone (py "0987654321") :: after
       /\ ~ In (py "0987654321") (List.map Phone_value before).
Proof.
  apply (@find_phone_first_match (py "0987654321") bob). reflexivity.
Defined.

Lemma add_phone_then_find_and_remove_witness :
  fst (add_phone ascii_isdigit (py "1112223334") bob) = Ok tt
  /\ find_phone (py "1112223334") (snd (add_phone ascii_isdigit (py "1112223334") bob))
     = Some (mkPhone (py "1112223334"))
  /\ snd (remove_phone (py "1112223334")
            (snd (add_phone ascii_isdigit (py "1112223334") bob)))
     = snd (remove_phone (py "1112223334") bob)
  /\ (~ has_phone (py "1112223334") bob ->
      snd (remove_phone (py "1112223334")
             (snd (add_phone ascii_isdigit (py "1112223334") bob))) = bob).
Proof.
  apply (@add_phone_then_find_and_remove ascii_isdigit (py "1112223334") bob).
  split; [repeat constructor | reflexivity].
Defined.

Lemma record_methods_keep_phones_valid_witness :
  record_ok ascii_isdigit
    (snd (edit_phone ascii_isdigit (py "5551234567") (py "1112223334") bob)).
Proof.
  apply (@record_methods_keep_phones_valid ascii_decimal ascii_isdigit).
  split; [repeat constructor | exact I].
Defined.

Lemma edit_phone_result_witness :
  has_phone (py "5551234567") bob
  /\ phones (mkRecord (mkName (py "Bob"))
                      [mkPhone (py "0987654321"); mkPhone (py "1112223334")] None)
     = without_phone (py "5551234567") (phones bob) ++ [mkPhone (py "1112223334")]
  /\ (List.length
        (phones (mkRecord (mkName (py "Bob"))
                          [mkPhone (py "0987654321"); mkPhone (py "1112223334")]
                          None))
      <= List.length (phones bob))%nat
  /\ name (mkRecord (mkName (py "Bob"))
                    [mkPhone (py "0987654321"); mkPhone (py "1112223334")] None)
     = name bob
  /\ birthday (mkRecord (mkName (py "Bob"))
                        [mkPhone (py "0987654321"); mkPhone (py "1112223334")] None)
     = birthday bob.
Proof.
  apply (@edit_phone_result ascii_isdigit (py "5551234567") (py "1112223334") bob).
  reflexivity.
Defined.

Lemma delete_removes_only_that_name_witness :
  fst (delete (py "Bob") sample_book) = Ok tt
  /\ dict_get (py "Bob") (snd (delete (py "Bob") sample_book)) = None
  /\ (forall k, k <> py "Bob" ->
        dict_get k (snd (delete (py "Bob") sample_book)) = dict_get k sample_book)
  /\ keys (snd (delete (py "Bob") sample_book))
     = filter (fun k => negb (str_eqb k (py "Bob"))) (keys sample_book)
  /\ (~ In (py "Bob") (keys sample_book) ->
      snd (delete (py "Bob") sample_book) = sample_book).
Proof.
  apply (@delete_removes_only_that_name (py "Bob") sample_book).
  distinct_keys.
Defined.

Lemma add_record_keeps_the_place_witness :
  snd (add_record bob (snd (add_record bob sample_book)))
  = snd (add_record bob sample_book).
Proof.
  apply (@add_record_keeps_the_place bob sample_book). reflexivity.
Defined.

Lemma add_record_then_delete_witness :
  snd (delete (Name_value (name alice)) (snd (add_record alice [(py "Bob", bob)])))
  = [(py "Bob", bob)].
Proof.
  apply (@add_record_then_delete alice [(py "Bob", bob)]).
  simpl. intuition discriminate.
Defined.

Lemma load_stops_at_the_bad_entry_witness :
  fst (load_from_file ascii_decimal ascii_isdigit
         (records_file [(py "Alice", record_to_json alice)]) []) = Ok tt
  /\ load_from_file ascii_decimal ascii_isdigit
       (records_file [(py "Alice", record_to_json alice); (py "Bad", JNull)]) []
     = (Raise TypeError,
        snd (load_from_file ascii_decimal ascii_isdigit
               (records_file [(py "Alice", record_to_json alice)]) [])).
Proof.
  apply (@load_stops_at_the_bad_entry ascii_decimal ascii_isdigit
           (records_file [(py "Alice", record_to_json alice); (py "Bad", JNull)])
           [] [(py "Alice", record_to_json alice)] [] (py "Bad") JNull TypeError).
  - reflexivity.
  - intros k' rd' [H|[]]. injection H as <- <-. eexists. vm_compute. reflexivity.
  - reflexivity.
Defined.

Lemma load_from_file_twice_witness :
  load_from_file ascii_decimal ascii_isdigit (save_to_file sample_book)
    (snd (load_from_file ascii_decimal ascii_isdigit (save_to_file sample_book) []))
  = (Ok tt,
     snd (load_from_file ascii_decimal ascii_isdigit (save_to_file sample_book) [])).
Proof.
  apply (@load_from_file_twice ascii_decimal ascii_isdigit
           (save_to_file sample_book) []).
  - distinct_keys.
  - reflexivity.
Defined.


Lemma find_empty_query_witness :
  find ascii_lower [] sample_book = List.map snd sample_book.
Proof.
  apply (@find_empty_query ascii_lower sample_book). reflexivity.
Defined.

Lemma iterator_page_size_at_most_one_witness :
  iterator 0 sample_book = List.map entry sample_book.
Proof.
  apply (@iterator_page_size_at_most_one 0 sample_book). discriminate.
Defined.

Lemma add_contact_takes_the_count_for_the_phone_witness :
  add_contact ascii_decimal ascii_isdigit
    ([], sample_world [py "Dan"; py ""; py "2"] NoFile)
  = (Raised (Exc (ValueError "Invalid phone number format. Phone not added.")),
     ([], after (sample_world [py "Dan"; py ""; py "2"] NoFile) []
                (py "Enter contact name: " ++ py "Enter birthday (YYYY-MM-DD): "
                 ++ py "Enter the number of phone numbers to add: "))).
Proof.
  apply (@add_contact_takes_the_count_for_the_phone ascii_decimal ascii_isdigit
           (py "Dan") (py "") (py "2") [] (mkRecord (mkName (py "Dan")) [] None)
           [] (sample_world [py "Dan"; py ""; py "2"] NoFile)).
  - reflexivity.
  - reflexivity.
  - intros [_ H]. discriminate.
Defined.

Lemma add_contact_refuses_a_bad_birthday_witness :
  add_contact ascii_decimal ascii_isdigit
    ([], sample_world [py "Dan"; py "soon"] NoFile)
  = (Raised (Exc (ValueError "Invalid birthday format. Use YYYY-MM-DD")),
     ([], after (sample_world [py "Dan"; py "soon"] NoFile) []
                (py "Enter contact name: " ++ py "Enter birthday (YYYY-MM-DD): "))).
Proof.
  apply (@add_contact_refuses_a_bad_birthday ascii_decimal ascii_isdigit
           (py "Dan") (py "soon") [] []
           (sample_world [py "Dan"; py "soon"] NoFile)).
  - reflexivity.
  - discriminate.
  - intros d H. apply strptime_reads in H. vm_compute in H. discriminate.
Defined.

Lemma delete_contact_always_reports_success_witness :
  delete_contact (sample_book, sample_world [py "Zed"] NoFile)
  = (Returned tt,
     (snd (delete (py "Zed") sample_book),
      after (sample_world [py "Zed"] NoFile) []
            (py "Enter contact name to delete: "
             ++ py "Contact deleted successfully." ++ nl)))
  /\ (~ In (py "Zed") (keys sample_book) ->
      snd (delete (py "Zed") sample_book) = sample_book).
Proof.
  apply (@delete_contact_always_reports_success (py "Zed") [] sample_book
           (sample_world [py "Zed"] NoFile)).
  reflexivity.
Defined.


Lemma main_needs_a_loadable_file_witness :
  main ascii_decimal ascii_isdigit ascii_lower (sample_world [py "4"] NotJson)
  = Some (Raised (Exc JSONDecodeError), ([], sample_world [py "4"] NotJson)).
Proof.
  apply (@main_needs_a_loadable_file ascii_decimal ascii_isdigit ascii_lower
           (sample_world [py "4"] NotJson) JSONDecodeError).
  - reflexivity.
  - discriminate.
Defined.


Lemma birthdays_listing_fails_on_a_leap_day_birthday_witness :
  exists t',
    show_all_contacts_with_birthdays
      (sample_book, mkworld [] [] NoFile winter_2023 0)
    = (Raised (Exc (ValueError "date value out of range")),
       (sample_book, ticked (mkworld [] [] NoFile winter_2023 0) t')).
Proof.
  apply (@birthdays_listing_fails_on_a_leap_day_birthday sample_book
           (mkworld [] [] NoFile winter_2023 0)).
  - intros i. reflexivity.
  - exists leapling, (mkBirthday (mkdate 2000 2 29)).
    split; [simpl; auto | repeat split].
Defined.
